(** * Deduplication post-processing of RedditDownloader

    A shallow embedding of [redditdownloader/processing/post_processing.py]:
    the [FileHasher] static methods (fingerprints and their distance) and the
    [Deduplicator] methods that act on the record store and on the download
    directory.  Python integers are [Z], [str] is [string], [None] results
    are [option], tables of the record store are lists of rows and the
    download directory is a finite map from relative paths to file contents. *)

From Stdlib Require Import ZArith List String Ascii Lia Permutation Sorted.
From Stdlib.Strings Require Import Byte.
From stdpp Require Import base option list strings gmap.
From Equations Require Import Equations.
Import ListNotations.

Local Open Scope string_scope.
Local Open Scope list_scope.
Local Open Scope Z_scope.

(** ** Python built-ins used by the module *)

Module Py.

(** [enumerate(l)], counting from [start]. *)
Fixpoint enumerate_from {A} (start : nat) (l : list A) : list (nat * A) :=
  match l with
  | [] => []
  | x :: r => (start, x) :: enumerate_from (S start) r
  end.

Definition enumerate {A} (l : list A) : list (nat * A) := enumerate_from 0 l.

(** [range(n)] *)
Definition range (n : nat) : list nat := seq 0 n.

(** One lower-case hexadecimal digit. *)
Definition hex_digit (d : Z) : ascii :=
  match d with
  | 0 => "0" | 1 => "1" | 2 => "2" | 3 => "3" | 4 => "4" | 5 => "5"
  | 6 => "6" | 7 => "7" | 8 => "8" | 9 => "9" | 10 => "a" | 11 => "b"
  | 12 => "c" | 13 => "d" | 14 => "e" | _ => "f"
  end%char.

(** The digits of a positive number in base 16, most significant first,
    by recursion on its binary representation: four bits make a digit. *)
Fixpoint hex_digits_pos (p : positive) (acc : string) : string :=
  match p with
  | (q~0~0~0~0)%positive => hex_digits_pos q (String (hex_digit 0) acc)
  | (q~0~0~0~1)%positive => hex_digits_pos q (String (hex_digit 1) acc)
  | (q~0~0~1~0)%positive => hex_digits_pos q (String (hex_digit 2) acc)
  | (q~0~0~1~1)%positive => hex_digits_pos q (String (hex_digit 3) acc)
  | (q~0~1~0~0)%positive => hex_digits_pos q (String (hex_digit 4) acc)
  | (q~0~1~0~1)%positive => hex_digits_pos q (String (hex_digit 5) acc)
  | (q~0~1~1~0)%positive => hex_digits_pos q (String (hex_digit 6) acc)
  | (q~0~1~1~1)%positive => hex_digits_pos q (String (hex_digit 7) acc)
  | (q~1~0~0~0)%positive => hex_digits_pos q (String (hex_digit 8) acc)
  | (q~1~0~0~1)%positive => hex_digits_pos q (String (hex_digit 9) acc)
  | (q~1~0~1~0)%positive => hex_digits_pos q (String (hex_digit 10) acc)
  | (q~1~0~1~1)%positive => hex_digits_pos q (String (hex_digit 11) acc)
  | (q~1~1~0~0)%positive => hex_digits_pos q (String (hex_digit 12) acc)
  | (q~1~1~0~1)%positive => hex_digits_pos q (String (hex_digit 13) acc)
  | (q~1~1~1~0)%positive => hex_digits_pos q (String (hex_digit 14) acc)
  | (q~1~1~1~1)%positive => hex_digits_pos q (String (hex_digit 15) acc)
  | _ => String (hex_digit (Zpos p)) acc
  end.

(** [hex(n)]: the prefix [0x] (after the sign) and the digits. *)
Definition hex (n : Z) : string :=
  match n with
  | Z0 => "0x0"
  | Zpos p => String.append "0x" (hex_digits_pos p "")
  | Zneg p => String.append "-0x" (hex_digits_pos p "")
  end.

(** [s[n:]] on a string. *)
Fixpoint drop_str (n : nat) (s : string) : string :=
  match n, s with
  | O, _ => s
  | S k, String _ r => drop_str k r
  | S _, EmptyString => EmptyString
  end.

(** [fill * n]: a string of [n] copies of the fill character. *)
Fixpoint fill_str (n : nat) (fill : ascii) : string :=
  match n with
  | O => EmptyString
  | S k => String fill (fill_str k fill)
  end.

(** [s.rjust(width, fill)]: pad on the left up to [width]. *)
Definition rjust (width : nat) (fill : ascii) (s : string) : string :=
  String.append (fill_str (width - String.length s) fill) s.

(** [''.join(l)] *)
Definition join (l : list string) : string := String.concat "" l.

(** [sorted(l, key=key, reverse=True)].  Python's sort is stable and
    [reverse=True] keeps it stable: the result is in descending key order
    and elements with equal keys keep their relative input order.  The
    model is the stable insertion sort with that behaviour. *)
Fixpoint insert_desc {A} (key : A -> Z) (x : A) (l : list A) : list A :=
  match l with
  | [] => [x]
  | y :: r => if key x <? key y then y :: insert_desc key x r else x :: y :: r
  end.

Fixpoint sorted_reverse {A} (key : A -> Z) (l : list A) : list A :=
  match l with
  | [] => []
  | x :: r => insert_desc key x (sorted_reverse key r)
  end.

End Py.

(** ** FileHasher *)

Module FileHasher.

(** [sum(el1 != el2 for el1, el2 in zip(s1, s2))]: [zip] stops at the
    shorter string. *)
Fixpoint count_differences (s1 s2 : string) : Z :=
  match s1, s2 with
  | String el1 r1, String el2 r2 =>
      (if Ascii.eqb el1 el2 then 0 else 1) + count_differences r1 r2
  | _, _ => 0
  end.

Definition hamming_distance (s1 s2 : string) : Z :=
  if negb (Nat.eqb (String.length s1) (String.length s2)) then 9999
  else count_differences s1 s2.

(** *** The collaborators of the hasher

    Pillow and hashlib are libraries, not code of this repository: they
    are the parameters of the section.  A call returns ([Ok]) or raises:
    [IOError], the one exception the module catches by name, or [Raised],
    any other exception (Pillow's [DecompressionBombError] on an image of
    too many pixels, for one), which no [except IOError] catches. *)

Inductive result (A : Type) : Type :=
| Ok (a : A)
| IOError
| Raised.
Arguments Ok {A} a.
Arguments IOError {A}.
Arguments Raised {A}.

(** The download directory: the bytes stored under each path; a path
    without an entry is not a file. *)
Abbreviation Disk := (gmap string (list Byte.byte)).

(** The pixels of a resized grayscale image: [getpixel((col, row))]. *)
Definition Pixels : Type := nat -> nat -> Z.

(** A value together with the equation that names it: the result of a
    read, kept while the loop tests it. *)
Definition inspect {A} (a : A) : {b : A | a = b} := exist _ a eq_refl.

Section Hashing.

(** [PIL.Image]: [Image_open] decodes the bytes of a file or raises;
    [n_frames] is the number of frames, [seek(k)] raising from
    [k = n_frames] on; [convert_resize image w h] is
    [image.convert('L').resize((w, h), Image.ANTIALIAS)], which loads
    the pixel data and raises when that fails. *)
Variable Image : Type.
Variable Image_open : list Byte.byte -> result Image.
Variable n_frames : Image -> nat.
Variable convert_resize : Image -> nat -> nat -> result Pixels.

(** [hashlib.sha1()]: the running state, [update] and [hexdigest]. *)
Variable Sha1 : Type.
Variable sha1_new : Sha1.
Variable sha1_update : Sha1 -> list Byte.byte -> Sha1.
Variable sha1_hexdigest : Sha1 -> string.

(** [image.seek(frame)]: [true] when it returns, [false] when it
    raises, whatever the exception: [_is_animated] catches them all. *)
Definition Image_seek (image : Image) (frame : nat) : bool :=
  (frame <? n_frames image)%nat.

Definition _is_animated (image : Image) : bool :=
  if Image_seek image 1 then true else false.

(** The two nested loops of [_dhash] that fill [difference]. *)
Definition compare_adjacent (getpixel : Pixels) (hash_size : nat) : list bool :=
  fold_left
    (fun difference row =>
       fold_left
         (fun difference col =>
            let pixel_left := getpixel col row in
            let pixel_right := getpixel (col + 1)%nat row in
            difference ++ [pixel_left >? pixel_right])
         (Py.range hash_size) difference)
    (Py.range hash_size) [].

(** One round of the loop that converts the binary array: the state is
    [(decimal_value, hex_string)]. *)
Definition pack_step (st : Z * list string) (iv : nat * bool) : Z * list string :=
  let '(decimal_value, hex_string) := st in
  let '(index, value) := iv in
  let decimal_value :=
    if value then decimal_value + 2 ^ Z.of_nat (index mod 8) else decimal_value in
  if (index mod 8 =? 7)%nat
  then (0, hex_string ++ [Py.rjust 2 "0" (Py.drop_str 2 (Py.hex decimal_value))])
  else (decimal_value, hex_string).

Definition binary_array_to_hex (difference : list bool) : string :=
  let '(_, hex_string) :=
    fold_left pack_step (Py.enumerate difference) (0, []) in
  Py.join hex_string.

Definition _dhash (image : Image) (hash_size : nat) : result string :=
  match convert_resize image (hash_size + 1) hash_size with
  | IOError => IOError
  | Raised => Raised
  | Ok getpixel => Ok (binary_array_to_hex (compare_adjacent getpixel hash_size))
  end.

(** [for b in iter(lambda: f.read(chunk), b''): h.update(b)] on the
    bytes not read yet: a read returns the next [chunk] bytes, fewer at
    the end of the file, and the loop stops at the empty read. *)
Equations? read_loop (chunk : nat) (h : Sha1) (rest : list Byte.byte) : Sha1
  by wf (length rest) lt :=
  read_loop chunk h rest with inspect (firstn chunk rest) := {
    | @exist [] _ => h
    | @exist (b :: bs) E =>
        read_loop chunk (sha1_update h (b :: bs)) (skipn chunk rest) }.
Proof.
  destruct chunk as [|c]; [discriminate|].
  destruct rest as [|x r]; [discriminate|].
  rewrite length_skipn. simpl. lia.
Qed.

Definition _sha_hash (disk : Disk) (filename : string) : option string :=
  match disk !! filename with
  | None => None
  | Some content =>
      Some (sha1_hexdigest (read_loop (1024 * 1024) sha1_new content))
  end.

(** [Image.open(filename)]: a missing file is an [IOError] as well. *)
Definition open_image (disk : Disk) (filename : string) : result Image :=
  match disk !! filename with
  | None => IOError
  | Some content => Image_open content
  end.

(** The result is what the function returns, a string or [None], inside
    [Ok]; [Raised] is an exception of Pillow that is not an [IOError] and
    leaves the function.  An [IOError] never leaves it. *)
Definition get_best_hash (disk : Disk) (filename : string)
  : result (option string) :=
  match open_image disk filename with
  | Ok image =>
      if _is_animated image then Ok (_sha_hash disk filename)
      else match _dhash image 8 with
           | Ok best_hash => Ok (Some best_hash)
           | IOError => Ok (_sha_hash disk filename)
           | Raised => Raised
           end
  | IOError => Ok (_sha_hash disk filename)
  | Raised => Raised
  end.

End Hashing.

End FileHasher.

(** ** Deduplicator *)

Module Deduplicator.

Import FileHasher.

(** *** The record store

    The tables of [sql] with the columns this module reads and writes.  A
    nullable column is an [option]; [File.hash] is the one-to-one relation
    to the fingerprint row, [None] while the file has none; [File.urls] is
    the relation through [URL.file_id]. *)

Record URL : Type := mkURL {
  file_id : Z;
  album_id : option string;
  processed : bool }.

Record Hash : Type := mkHash {
  full_hash : string;
  p1 : string;
  p2 : string;
  p3 : string;
  p4 : string }.

Record File : Type := mkFile {
  id : Z;
  path : string;
  downloaded : bool;
  hash : option Hash }.

Record Store : Type := mkStore {
  files : list File;
  urls : list URL }.

(** [file.urls] *)
Definition File_urls (store : Store) (file : File) : list URL :=
  List.filter (fun u => file_id u =? id file) (urls store).

(** The truth value Python gives a nullable string: [None] and the empty
    string are false. *)
Definition truthy (v : option string) : bool :=
  match v with
  | Some (String _ _) => true
  | _ => false
  end.

(** [SanitizedRelFile(base=..., file_path=p)] addresses the stored object
    of the relative path [p] in the download directory. *)
Definition is_file (disk : Disk) (p : string) : bool :=
  match disk !! p with
  | Some _ => true
  | None => false
  end.

Definition delete_file (disk : Disk) (p : string) : Disk := delete p disk.

(** *** Match finder *)

Definition _check_hash_match (store : Store) (file : File) (search_hash : string) : bool :=
  match hash file with
  | None => false
  | Some file_hash =>
      if existsb (fun u => truthy (album_id u) || negb (processed u))
           (File_urls store file)
      then false
      else if hamming_distance search_hash (full_hash file_hash) >=? 4
      then false
      else true
  end.

Section MatchFinder.

(** [Hash.split_hash] of [sql]: the four partitions of a fingerprint. *)
Variable split_hash : string -> string * string * string * string.

(** [.all()]: the queries have no [ORDER BY], so the rows that satisfy a
    query come in an order the database chooses; [fetch] is that order on
    the selected rows (some permutation of them, which the properties that
    need it assume). *)
Variable fetch : list File -> list File.

(** The query of [_find_matching_files]: the files joined with their
    fingerprint row whose full fingerprint or one partition is the searched
    one, in the order the database returns them. *)
Definition query_candidates (store : Store) (search_hash : string) : list File :=
  let '(sp0, sp1, sp2, sp3) := split_hash search_hash in
  fetch
    (List.filter
       (fun f =>
          match hash f with
          | None => false
          | Some h =>
              String.eqb (full_hash h) search_hash
              || String.eqb (p1 h) sp0
              || String.eqb (p2 h) sp1
              || String.eqb (p3 h) sp2
              || String.eqb (p4 h) sp3
          end)
       (files store)).

Definition _find_matching_files (store : Store) (search_hash : string) (ignore_id : Z)
  : list File :=
  let all_hashes := query_candidates store search_hash in
  List.filter (fun f => _check_hash_match store f search_hash) all_hashes.

End MatchFinder.

(** *** Resolution *)

Section Resolution.

(** [SanitizedRelFile(...).size()] of [processing.wrappers]: the size of
    the object stored under a relative path. *)
Variable size : string -> Z.

(** [files[0], files[1:]] of the sorted list; [None] is the [IndexError]
    of an empty list. *)
Definition _choose_best_file (files : list File) : option (File * list File) :=
  let files := Py.sorted_reverse (fun f => size (path f)) files in
  match files with
  | [] => None
  | best :: others => Some (best, others)
  end.

(** The bulk update of [_upgrade_file] on one row. *)
Definition reassign (old_id new_id : Z) (u : URL) : URL :=
  if file_id u =? old_id
  then {| file_id := new_id; album_id := album_id u; processed := processed u |}
  else u.

Definition _upgrade_file (world : Store * Disk) (new_file old_file : File)
  : Store * Disk :=
  let '(store, disk) := world in
  let store :=
    {| files := files store;
       urls := map (reassign (id old_file) (id new_file)) (urls store) |} in
  let disk :=
    if is_file disk (path old_file) then delete_file disk (path old_file)
    else disk in
  (store, disk).

(** The resolution of [_dedupe] on the list [matches + [f]]: the best
    file, the others, and the world after every other file was upgraded to
    the best one. *)
Definition resolve (world : Store * Disk) (files : list File)
  : option (File * list File * (Store * Disk)) :=
  match _choose_best_file files with
  | None => None
  | Some (best, others) =>
      Some (best, others,
            fold_left (fun w o => _upgrade_file w best o) others world)
  end.

End Resolution.

(** *** Pruning *)

(** [File.urls.any()] *)
Definition urls_any (store : Store) (file : File) : bool :=
  existsb (fun u => file_id u =? id file) (urls store).

(** The bulk delete of [_prune]: the store without the files that have no
    URL, and [orphans], the number of rows deleted. *)
Definition _prune (store : Store) : Store * Z :=
  let orphans := List.filter (fun f => negb (urls_any store f)) (files store) in
  ({| files := List.filter (fun f => urls_any store f) (files store);
      urls := urls store |},
   Z.of_nat (length orphans)).

End Deduplicator.

(** ** The sweep *)

Module Sweep.

Import FileHasher Deduplicator.

Section Dedupe.

(** The collaborators of the hasher, as in [FileHasher]. *)
Variable Image : Type.
Variable Image_open : list Byte.byte -> result Image.
Variable n_frames : Image -> nat.
Variable convert_resize : Image -> nat -> nat -> result Pixels.
Variable Sha1 : Type.
Variable sha1_new : Sha1.
Variable sha1_update : Sha1 -> list Byte.byte -> Sha1.
Variable sha1_hexdigest : Sha1 -> string.

(** [Hash.split_hash] and [Hash.make_hash] of [sql], and the order the
    database returns the rows of a query in, as in [Deduplicator]. *)
Variable split_hash : string -> string * string * string * string.
Variable fetch : list File -> list File.
Variable make_hash : File -> string -> Hash.

(** [SanitizedRelFile(...).size()], asked while the directory is [disk]. *)
Variable size : Disk -> string -> Z.

(** [self._stop_event.is_set()], as the round [idx] of the loop finds it. *)
Variable stop_event : nat -> bool.

(** The query of [_dedupe]: the downloaded files without fingerprint, in
    the order the database returns them. *)
Definition query_unfinished (store : Store) : list File :=
  fetch
    (List.filter (fun f => downloaded f)
       (List.filter
          (fun f => match hash f with None => true | Some _ => false end)
          (files store))).

(** [any(u.album_id for u in f.urls)], the relation read from the store
    as it is when the round runs. *)
Definition has_album (store : Store) (f : File) : bool :=
  existsb (fun u => truthy (album_id u)) (File_urls store f).

(** [f.hash = h], on the row of [f]. *)
Definition set_hash (store : Store) (f : File) (h : Hash) : Store :=
  {| files :=
       map (fun g =>
              if id g =? id f
              then {| id := id g; path := path g; downloaded := downloaded g;
                      hash := Some h |}
              else g)
           (files store);
     urls := urls store |}.

(** One round of the loop of [_dedupe], on the file [f] of index [idx];
    [None] is an exception that ends the sweep: an exception that leaves
    [get_best_hash], the [IndexError] of [_choose_best_file], or a hash
    that is [None], which [Hash.split_hash] is not made for. *)
Definition dedupe_round (world : Store * Disk) (idx : nat) (f : File)
  : option (Store * Disk) :=
  let '(store, disk) := world in
  let is_album := has_album store f in
  if negb (is_file disk (path f)) || is_album || stop_event idx
  then Some world
  else
    match get_best_hash Image Image_open n_frames convert_resize
            Sha1 sha1_new sha1_update sha1_hexdigest disk (path f) with
    | Raised | IOError | Ok None => None
    | Ok (Some new_hash) =>
        let matches :=
          _find_matching_files split_hash fetch store new_hash (id f) in
        let f_hash := make_hash f new_hash in
        let f := {| id := id f; path := path f; downloaded := downloaded f;
                    hash := Some f_hash |} in
        let store := set_hash store f f_hash in
        match matches with
        | [] => Some (store, disk)
        | _ :: _ =>
            match resolve (size disk) (store, disk) (matches ++ [f]) with
            | None => None
            | Some (_, _, world) => Some world
            end
        end
    end.

(** The loop over [enumerate(unfinished)]. *)
Definition dedupe_rounds (rounds : list (nat * File)) (world : Store * Disk)
  : option (Store * Disk) :=
  fold_left
    (fun w round =>
       match w with
       | None => None
       | Some w => dedupe_round w (fst round) (snd round)
       end)
    rounds (Some world).

Definition _dedupe (world : Store * Disk) : option (Store * Disk) :=
  let '(store, disk) := world in
  let unfinished := query_unfinished store in
  let unfinished :=
    List.filter (fun _f => negb (has_album store _f)) unfinished in
  match unfinished with
  | [] => Some world
  | _ :: _ =>
      match dedupe_rounds (Py.enumerate unfinished) world with
      | None => None
      | Some (store, disk) => Some (fst (_prune store), disk)
      end
  end.

End Dedupe.

End Sweep.

(** ** What a sweep keeps *)

Module SweepInvariant.

Import FileHasher Deduplicator Sweep.

(** The files a pass may fingerprint: downloaded, without fingerprint and
    without album URL in the store the pass starts with, and with a stored
    object in the directory it starts with. *)
Definition eligible (store0 : Store) (disk0 : Disk) (g0 : File) : Prop :=
  hash g0 = None /\ downloaded g0 = true /\ has_album store0 g0 = false
  /\ is_file disk0 (path g0) = true.

(** The row [g] is the row [g0] of the first store, but for a fingerprint
    it got as an eligible file (where ids are keys of the table). *)
Definition file_kept (store0 : Store) (disk0 : Disk) (g0 g : File) : Prop :=
  id g = id g0 /\ path g = path g0 /\ downloaded g = downloaded g0
  /\ (List.NoDup (map id (files store0)) ->
      hash g = hash g0 \/ eligible store0 disk0 g0).

(** The world during a pass against the world [(store0, disk0)] it
    started with. *)
Definition invariant (store0 : Store) (disk0 : Disk) (world : Store * Disk) : Prop :=
  (exists F, files (fst world) = map F (files store0)
             /\ forall g0, In g0 (files store0) -> file_kept store0 disk0 g0 (F g0))
  /\ (exists G, urls (fst world) = map G (urls store0)
                /\ forall u, album_id (G u) = album_id u
                             /\ processed (G u) = processed u)
  /\ snd world ⊆ disk0
  /\ (forall p c, disk0 !! p = Some c -> snd world !! p = None ->
        exists g0, In g0 (files store0) /\ path g0 = p).

End SweepInvariant.

(** ** The difference hash as the specification words it *)

Module DifferenceHash.

Import FileHasher.

(** For every row, each pixel of the grid against its right neighbour. *)
Definition adjacent_comparisons (getpixel : Pixels) (n : nat) : list bool :=
  flat_map
    (fun row => map (fun col => getpixel col row >? getpixel (S col) row) (seq 0 n))
    (seq 0 n).

(** The number a group of bits denotes when the first bit of the group is
    the least significant one. *)
Fixpoint value_lsb_first (bits : list bool) : Z :=
  match bits with
  | [] => 0
  | b :: rest => Z.b2z b + 2 * value_lsb_first rest
  end.

(** The number a group of bits denotes when the first bit of the group is
    the most significant one. *)
Definition value_msb_first (bits : list bool) : Z :=
  fold_left (fun acc b => 2 * acc + Z.b2z b) bits 0.

(** The two hexadecimal digits of a byte. *)
Definition hex_pair (v : Z) : string :=
  String (Py.hex_digit (v / 16)) (String (Py.hex_digit (v mod 16)) EmptyString).

(** The bits taken 8 at a time, each full group written as two digits; an
    incomplete last group is left out. *)
Fixpoint pack_groups (value : list bool -> Z) (bits : list bool) : list string :=
  match bits with
  | b0 :: b1 :: b2 :: b3 :: b4 :: b5 :: b6 :: b7 :: rest =>
      hex_pair (value [b0; b1; b2; b3; b4; b5; b6; b7]) :: pack_groups value rest
  | _ => []
  end.

Definition dhash_lsb_first (getpixel : Pixels) (n : nat) : string :=
  String.concat "" (pack_groups value_lsb_first (adjacent_comparisons getpixel n)).

Definition dhash_msb_first (getpixel : Pixels) (n : nat) : string :=
  String.concat "" (pack_groups value_msb_first (adjacent_comparisons getpixel n)).

End DifferenceHash.

(** ** The content hash as the specification words it *)

Module ContentHash.

(** The digest of a whole file: the hash fed with all its bytes at once. *)
Definition sha1_digest {Sha1 : Type} (sha1_new : Sha1)
  (sha1_update : Sha1 -> list Byte.byte -> Sha1)
  (sha1_hexdigest : Sha1 -> string) (content : list Byte.byte) : string :=
  sha1_hexdigest (sha1_update sha1_new content).

End ContentHash.

(** ** Hexadecimal strings *)

Module HexString.

(** The digits [hex] and [hexdigest] write: 0 to 9 and a to f. *)
Definition is_lower_hex (c : ascii) : bool :=
  existsb (Ascii.eqb c) (list_ascii_of_string "0123456789abcdef").

Definition all_lower_hex (s : string) : bool :=
  forallb is_lower_hex (list_ascii_of_string s).

End HexString.

(** ** The precision filter as the specification words it *)

Module MatchSpec.

Import Deduplicator.

(** Album-tagged, as the data model of the specification has it: the
    album identifier is not null. *)
Definition album_tagged (u : URL) : Prop := album_id u <> None.

(** An album identifier that is there and is not the empty string. *)
Definition album_named (u : URL) : Prop :=
  match album_id u with
  | Some s => s <> EmptyString
  | None => False
  end.

(** The number of positions at which two strings differ. *)
Definition differing_positions (s1 s2 : string) : nat :=
  length
    (List.filter
       (fun i =>
          match String.get i s1, String.get i s2 with
          | Some a, Some b => negb (Ascii.eqb a b)
          | _, _ => false
          end)
       (seq 0 (String.length s1))).

(** The three reasons to leave a candidate out of the matches: no
    fingerprint; a URL with a named album or not processed; a fingerprint
    of another length than the searched one, or one that differs from it
    at 4 positions or more. *)
Definition rejected (store : Store) (file : File) (search_hash : string) : Prop :=
  hash file = None
  \/ (exists u, In u (File_urls store file)
                 /\ (album_named u \/ processed u = false))
  \/ (exists h, hash file = Some h
                 /\ (String.length search_hash <> String.length (full_hash h)
                     \/ (4 <= differing_positions search_hash (full_hash h))%nat)).

End MatchSpec.

(** ** Stand-ins for the collaborators, to run the module on inputs *)

Module Mock.

Import FileHasher Deduplicator.

(** An image is its number of frames and its grayscale grid, whatever the
    size asked for. *)
Definition Image : Type := nat * Pixels.

(** A grid that is 1 at the top left pixel and 0 elsewhere. *)
Definition corner : Pixels :=
  fun col row => match col, row with O, O => 1 | _, _ => 0 end.

(** Files that start with the letter P are still images, files that start
    with the letter G have two frames, files that start with the letter B
    are images of too many pixels, others are not images. *)
Definition Image_open (content : list Byte.byte) : result Image :=
  match content with
  | x50 :: _ => Ok (1%nat, corner)
  | x47 :: _ => Ok (2%nat, corner)
  | x42 :: _ => Raised
  | _ => IOError
  end.

Definition n_frames (image : Image) : nat := fst image.

Definition convert_resize (image : Image) (width height : nat) : result Pixels :=
  Ok (snd image).

(** A running hash that keeps what it was fed and a digest of 40 digits. *)
Definition Sha1 : Type := list Byte.byte.
Definition sha1_new : Sha1 := [].
Definition sha1_update (h : Sha1) (b : list Byte.byte) : Sha1 := h ++ b.
Definition sha1_hexdigest (h : Sha1) : string :=
  "da39a3ee5e6b4b0d3255bfef95601890afd80709".

Definition disk : Disk :=
  {[ "still.png" := [x50; x4e; x47]; "anim.gif" := [x47; x49; x46];
     "notes.txt" := [x68; x69]; "bomb.png" := [x42; x4f; x4d; x42] ]}.

(** A database that returns the rows of a query last row first. *)
Definition fetch (rows : list File) : list File := rev rows.

(** The four quarters of a fingerprint of 16 digits. *)
Definition split_hash (h : string) : string * string * string * string :=
  (substring 0 4 h, substring 4 4 h, substring 8 4 h, substring 12 4 h).

Definition make_hash (h : string) : Hash :=
  let '(a, b, c, d) := split_hash h in
  {| full_hash := h; p1 := a; p2 := b; p3 := c; p4 := d |}.

(** Three files of 10, 50 and 30 bytes. *)
Definition photos : Disk :=
  {[ "a.jpg" := repeat x50 10; "b.jpg" := repeat x50 50;
     "c.jpg" := repeat x50 30 ]}.

Definition size (p : string) : Z :=
  match photos !! p with
  | Some content => Z.of_nat (length content)
  | None => 0
  end.

Definition file_a : File :=
  {| id := 1; path := "a.jpg"; downloaded := true;
     hash := Some (make_hash "00ff00ff00ff00ff") |}.
Definition file_b : File :=
  {| id := 2; path := "b.jpg"; downloaded := true;
     hash := Some (make_hash "00ff00ff00ff00fe") |}.
Definition file_c : File :=
  {| id := 3; path := "c.jpg"; downloaded := true; hash := None |}.

Definition url_of (f : Z) : URL :=
  {| file_id := f; album_id := None; processed := true |}.

Definition store : Store :=
  {| files := [file_a; file_b; file_c];
     urls := [url_of 1; url_of 2; url_of 3; url_of 1] |}.

(** A processed URL of the file 1 whose album id is the empty string, and
    the store of that file and that URL. *)
Definition url_blank_album : URL :=
  {| file_id := 1; album_id := Some EmptyString; processed := true |}.

Definition store_blank_album : Store :=
  {| files := [file_a]; urls := [url_blank_album] |}.

End Mock.

(** ** A small world for the sweep *)

Module MockSweep.

Import FileHasher Deduplicator.

Definition make_hash (f : File) (h : string) : Hash := Mock.make_hash h.

(** The size of a stored object is its number of bytes, 0 without object. *)
Definition size (disk : Disk) (p : string) : Z :=
  match disk !! p with
  | Some content => Z.of_nat (length content)
  | None => 0
  end.

Definition never_stopped (idx : nat) : bool := false.
Definition stopped (idx : nat) : bool := true.

(** The file 2 has the fingerprint of the grid with one bright pixel; the
    file 3, smaller, is a still image too and has no fingerprint yet. *)
Definition known : File :=
  {| id := 2; path := "b.jpg"; downloaded := true;
     hash := Some (Mock.make_hash "0100000000000000") |}.

Definition store : Store :=
  {| files := [known; Mock.file_c]; urls := [Mock.url_of 2; Mock.url_of 3] |}.

(** The world after a pass: the file 3 lost against the file 2. *)
Definition store_after : Store :=
  {| files := [known]; urls := [Mock.url_of 2; Mock.url_of 2] |}.

Definition disk_after : Disk := delete "c.jpg" Mock.photos.

(** A store whose one file is an image of too many pixels, in the
    directory [Mock.disk]. *)
Definition bomb : File :=
  {| id := 4; path := "bomb.png"; downloaded := true; hash := None |}.

Definition bomb_store : Store :=
  {| files := [bomb]; urls := [Mock.url_of 4] |}.

(** A store without file to fingerprint, with a file without URL. *)
Definition finished : Store :=
  {| files := [known; Mock.file_a]; urls := [Mock.url_of 2] |}.

(** The pass with the stand-ins of [Mock], the stop signal as given. *)
Definition dedupe (stop_event : nat -> bool) (world : Store * Disk)
  : option (Store * Disk) :=
  Sweep._dedupe Mock.Image Mock.Image_open Mock.n_frames Mock.convert_resize
    Mock.Sha1 Mock.sha1_new Mock.sha1_update Mock.sha1_hexdigest
    Mock.split_hash Mock.fetch make_hash size stop_event world.

(** The world after the resolution of the three files of [Mock]. *)
Definition resolved : Store :=
  {| files := files Mock.store;
     urls := [Mock.url_of 2; Mock.url_of 2; Mock.url_of 2; Mock.url_of 2] |}.

Definition photos_resolved : Disk :=
  delete "a.jpg" (delete "c.jpg" Mock.photos).

End MockSweep.

(** ** Properties of the hasher *)

Module FileHasherProofs.

Import FileHasher DifferenceHash.

(** *** The built-ins on a few inputs *)

Example hex_of_171 : Py.hex 171 = "0xab"%string.
Proof. reflexivity. Qed.

Example hex_of_4660 : Py.hex 4660 = "0x1234"%string.
Proof. reflexivity. Qed.

Example rjust_of_one_digit :
  Py.rjust 2 "0" (Py.drop_str 2 (Py.hex 10)) = "0a"%string.
Proof. reflexivity. Qed.

Example sorted_reverse_keeps_ties :
  Py.sorted_reverse (fun x => x / 10) [10; 51; 30; 52; 11] = [51; 52; 30; 10; 11].
Proof. reflexivity. Qed.

Example hamming_distance_of_one_change :
  hamming_distance "00ff00ff00ff00ff" "00ff00ff00ff00fe" = 1.
Proof. reflexivity. Qed.

Example binary_array_to_hex_of_two_bytes :
  binary_array_to_hex
    [true; true; false; false; false; false; false; false;
     false; false; false; false; true; false; true; false; true]
  = "0350"%string.
Proof. reflexivity. Qed.

(** *** Strings and loops *)

Lemma string_length_append (s t : string) :
  String.length (String.append s t) = (String.length s + String.length t)%nat.
Proof. induction s as [|c s IH]; simpl; [reflexivity | now rewrite IH]. Qed.

Lemma string_append_empty (s : string) : String.append s "" = s.
Proof.
  induction s as [|c s IH]; [reflexivity|].
  rewrite <- IH at 2. reflexivity.
Qed.

(** [''.join] of a list is its first string followed by the join of the
    others. *)
Lemma join_cons (x : string) (l : list string) :
  Py.join (x :: l) = String.append x (Py.join l).
Proof.
  unfold Py.join. destruct l as [|y r]; simpl.
  - now rewrite string_append_empty.
  - reflexivity.
Qed.

Lemma join_pairs_length (l : list string) :
  Forall (fun x => String.length x = 2%nat) l ->
  String.length (Py.join l) = (2 * length l)%nat.
Proof.
  induction 1 as [|x r Hx Hr IH]; [reflexivity|].
  rewrite join_cons, string_length_append, IH, Hx. simpl length. lia.
Qed.

(** The inner loop appends one comparison for each column. *)
Lemma fold_append_map {A B} (f : A -> B) (l : list A) (acc : list B) :
  fold_left (fun d x => d ++ [f x]) l acc = acc ++ map f l.
Proof.
  revert acc. induction l as [|x l IH]; intros acc; simpl.
  - now rewrite app_nil_r.
  - rewrite IH. now rewrite <- app_assoc.
Qed.

(** The outer loop appends the comparisons row after row. *)
Lemma fold_append_flat_map {A B} (f : A -> list B) (l : list A) (acc : list B) :
  fold_left (fun d x => d ++ f x) l acc = acc ++ flat_map f l.
Proof.
  revert acc. induction l as [|x l IH]; intros acc; simpl.
  - now rewrite app_nil_r.
  - rewrite IH. now rewrite <- app_assoc.
Qed.

Lemma fold_left_pointwise {A B} (f g : A -> B -> A) (l : list B) (a : A) :
  (forall a x, f a x = g a x) -> fold_left f l a = fold_left g l a.
Proof.
  intros H. revert a. induction l as [|x l IH]; intros a; simpl.
  - reflexivity.
  - now rewrite H, IH.
Qed.

Lemma compare_adjacent_rows (getpixel : Pixels) (n : nat) :
  compare_adjacent getpixel n = adjacent_comparisons getpixel n.
Proof.
  unfold compare_adjacent, adjacent_comparisons, Py.range.
  rewrite <- (app_nil_l (flat_map _ _)).
  rewrite <- fold_append_flat_map.
  apply fold_left_pointwise. intros d row.
  rewrite fold_append_map. f_equal.
  apply map_ext. intros col. now rewrite Nat.add_1_r.
Qed.

Lemma adjacent_comparisons_length (getpixel : Pixels) (n : nat) :
  length (adjacent_comparisons getpixel n) = (n * n)%nat.
Proof.
  unfold adjacent_comparisons.
  rewrite flat_map_constant_length with (c := n).
  - now rewrite length_seq.
  - intros row _. now rewrite length_map, length_seq.
Qed.

(** *** The conversion loop *)

(** Lists of bits are covered by the short ones, under 8 bits, and by a
    group of 8 in front of a covered list. *)
Lemma groups_ind (P : list bool -> Prop) :
  (forall bits, (length bits < 8)%nat -> P bits) ->
  (forall b0 b1 b2 b3 b4 b5 b6 b7 rest,
      P rest -> P (b0 :: b1 :: b2 :: b3 :: b4 :: b5 :: b6 :: b7 :: rest)) ->
  forall bits, P bits.
Proof.
  intros Hshort Hgroup bits.
  remember (length bits) as fuel eqn:Hfuel.
  assert (Hle : (length bits <= fuel)%nat) by lia. clear Hfuel.
  revert bits Hle. induction fuel as [|fuel IH]; intros bits Hle.
  - apply Hshort. lia.
  - destruct bits as [|b0 [|b1 [|b2 [|b3 [|b4 [|b5 [|b6 [|b7 rest]]]]]]]];
      try (apply Hshort; simpl; lia).
    apply Hgroup, IH. simpl in Hle. lia.
Qed.

Lemma enumerate_from_app {A} (l1 l2 : list A) (start : nat) :
  Py.enumerate_from start (l1 ++ l2)
  = Py.enumerate_from start l1 ++ Py.enumerate_from (start + length l1) l2.
Proof.
  revert start. induction l1 as [|x l1 IH]; intros start; simpl.
  - now rewrite Nat.add_0_r.
  - rewrite IH. now rewrite Nat.add_succ_r.
Qed.

(** A round looks at the index through its remainder by 8 only. *)
Lemma pack_step_index (st : Z * list string) (a b : nat) (v : bool) :
  (a mod 8 = b mod 8)%nat -> pack_step st (a, v) = pack_step st (b, v).
Proof. intros H. unfold pack_step. destruct st. now rewrite H. Qed.

Lemma succ_mod8 (a b : nat) :
  (a mod 8 = b mod 8)%nat -> (S a mod 8 = S b mod 8)%nat.
Proof.
  intros H. rewrite <- (Nat.add_1_r a), <- (Nat.add_1_r b).
  rewrite (Nat.Div0.add_mod a), (Nat.Div0.add_mod b). now rewrite H.
Qed.

Lemma fold_pack_shift (l : list bool) (a b : nat) (st : Z * list string) :
  (a mod 8 = b mod 8)%nat ->
  fold_left pack_step (Py.enumerate_from a l) st
  = fold_left pack_step (Py.enumerate_from b l) st.
Proof.
  revert a b st. induction l as [|x l IH]; intros a b st H; simpl.
  - reflexivity.
  - rewrite (pack_step_index st a b x H). apply IH, succ_mod8, H.
Qed.

(** Eight rounds from a multiple of 8 on emit the two digits of the group,
    the first bit weighing 1, and reset the value. *)
Lemma pack_eight (b0 b1 b2 b3 b4 b5 b6 b7 : bool) (hex_string : list string) :
  fold_left pack_step (Py.enumerate_from 0 [b0; b1; b2; b3; b4; b5; b6; b7])
    (0, hex_string)
  = (0, hex_string ++ [hex_pair (value_lsb_first [b0; b1; b2; b3; b4; b5; b6; b7])]).
Proof.
  destruct b0, b1, b2, b3, b4, b5, b6, b7; reflexivity.
Qed.

(** Fewer than 8 rounds emit nothing. *)
Lemma pack_short (bits : list bool) (hex_string : list string) :
  (length bits < 8)%nat ->
  snd (fold_left pack_step (Py.enumerate_from 0 bits) (0, hex_string)) = hex_string.
Proof.
  intros H.
  destruct bits as [|b0 [|b1 [|b2 [|b3 [|b4 [|b5 [|b6 [|b7 rest]]]]]]]];
    try reflexivity.
  simpl in H. lia.
Qed.

Lemma pack_loop_groups (bits : list bool) :
  forall hex_string,
    snd (fold_left pack_step (Py.enumerate_from 0 bits) (0, hex_string))
    = hex_string ++ pack_groups value_lsb_first bits.
Proof.
  induction bits as [bits Hshort | b0 b1 b2 b3 b4 b5 b6 b7 rest IH] using groups_ind;
    intros hex_string.
  - rewrite pack_short by assumption.
    destruct bits as [|b0 [|b1 [|b2 [|b3 [|b4 [|b5 [|b6 [|b7 rest]]]]]]]];
      try (simpl; now rewrite app_nil_r).
    simpl in Hshort. lia.
  - change (b0 :: b1 :: b2 :: b3 :: b4 :: b5 :: b6 :: b7 :: rest)
      with ([b0; b1; b2; b3; b4; b5; b6; b7] ++ rest).
    rewrite enumerate_from_app, fold_left_app, pack_eight.
    rewrite (fold_pack_shift rest _ 0) by reflexivity.
    rewrite IH. simpl pack_groups. now rewrite <- app_assoc.
Qed.

Lemma binary_array_to_hex_groups (bits : list bool) :
  binary_array_to_hex bits = Py.join (pack_groups value_lsb_first bits).
Proof.
  unfold binary_array_to_hex, Py.enumerate.
  pose proof (pack_loop_groups bits []) as H.
  destruct (fold_left pack_step (Py.enumerate_from 0 bits) (0, [])) as [dv hs].
  simpl in H. now rewrite H.
Qed.

Lemma pack_groups_length (value : list bool -> Z) (bits : list bool) :
  length (pack_groups value bits) = (length bits / 8)%nat.
Proof.
  induction bits as [bits Hshort | b0 b1 b2 b3 b4 b5 b6 b7 rest IH] using groups_ind.
  - rewrite Nat.div_small by assumption.
    destruct bits as [|b0 [|b1 [|b2 [|b3 [|b4 [|b5 [|b6 [|b7 rest]]]]]]]];
      try reflexivity.
    simpl in Hshort. lia.
  - change (length (b0 :: b1 :: b2 :: b3 :: b4 :: b5 :: b6 :: b7 :: rest))
      with (1 * 8 + length rest)%nat.
    rewrite Nat.div_add_l by lia.
    simpl pack_groups. simpl length. now rewrite IH.
Qed.

Lemma pack_groups_pairs (value : list bool -> Z) (bits : list bool) :
  Forall (fun x => String.length x = 2%nat) (pack_groups value bits).
Proof.
  induction bits as [bits Hshort | b0 b1 b2 b3 b4 b5 b6 b7 rest IH] using groups_ind.
  - destruct bits as [|b0 [|b1 [|b2 [|b3 [|b4 [|b5 [|b6 [|b7 rest]]]]]]]];
      try solve [simpl; constructor].
    simpl in Hshort. lia.
  - simpl pack_groups. constructor; [reflexivity | exact IH].
Qed.

(** *** The difference hash *)

Lemma quarter_of_square (n : nat) :
  (n mod 4 = 0)%nat -> (2 * (n * n / 8) = n * n / 4)%nat.
Proof.
  intros H.
  pose proof (Nat.div_mod_eq n 4) as E. rewrite H, Nat.add_0_r in E.
  set (k := (n / 4)%nat) in *.
  replace (n * n)%nat with (2 * k * k * 8)%nat at 1 by (rewrite E; lia).
  replace (n * n)%nat with (4 * k * k * 4)%nat by (rewrite E; lia).
  rewrite !Nat.div_mul by lia. lia.
Qed.

Lemma dhash_groups
  (Image : Type) (convert_resize : Image -> nat -> nat -> result Pixels)
  (image : Image) (hash_size : nat) (getpixel : Pixels) :
  convert_resize image (hash_size + 1)%nat hash_size = Ok getpixel ->
  _dhash Image convert_resize image hash_size = Ok (dhash_lsb_first getpixel hash_size).
Proof.
  intros Hload. unfold _dhash. rewrite Hload. f_equal.
  rewrite binary_array_to_hex_groups, compare_adjacent_rows. reflexivity.
Qed.

Lemma dhash_lsb_first_length (getpixel : Pixels) (hash_size : nat) :
  String.length (dhash_lsb_first getpixel hash_size)
  = (2 * (hash_size * hash_size / 8))%nat.
Proof.
  unfold dhash_lsb_first.
  change (String.concat "") with Py.join.
  rewrite join_pairs_length by apply pack_groups_pairs.
  now rewrite pack_groups_length, adjacent_comparisons_length.
Qed.

(** C2, as the code has it: on a still image whose pixel data loads,
    [_dhash] compares, row after row, each pixel of the grid of
    [hash_size + 1] columns and [hash_size] rows with its right neighbour
    and packs the comparisons 8 at a time, the FIRST bit of a group being
    the LEAST significant one of its byte, two hexadecimal digits for each
    full group.  The string has [2 * (hash_size * hash_size / 8)] digits,
    which is [hash_size * hash_size / 4] when [hash_size] is a multiple of
    4, and 16 for the default size 8. *)
Theorem dhash_packs_lsb_first
  (Image : Type) (convert_resize : Image -> nat -> nat -> result Pixels)
  (image : Image) (hash_size : nat) (getpixel : Pixels) :
  convert_resize image (hash_size + 1)%nat hash_size = Ok getpixel ->
  _dhash Image convert_resize image hash_size = Ok (dhash_lsb_first getpixel hash_size)
  /\ String.length (dhash_lsb_first getpixel hash_size)
     = (2 * (hash_size * hash_size / 8))%nat
  /\ ((hash_size mod 4 = 0)%nat ->
      String.length (dhash_lsb_first getpixel hash_size)
      = (hash_size * hash_size / 4)%nat)
  /\ (hash_size = 8%nat ->
      String.length (dhash_lsb_first getpixel hash_size) = 16%nat).
Proof.
  intros Hload.
  split; [now apply dhash_groups|].
  split; [apply dhash_lsb_first_length|].
  split.
  - intros H4. rewrite dhash_lsb_first_length. now apply quarter_of_square.
  - intros ->. now rewrite dhash_lsb_first_length.
Qed.

(** The hash of the grid with one bright pixel, of size 8. *)
Lemma dhash_packs_lsb_first_witness :
  _dhash Mock.Image Mock.convert_resize (1%nat, Mock.corner) 8
  = Ok (dhash_lsb_first Mock.corner 8)
  /\ String.length (dhash_lsb_first Mock.corner 8) = (2 * (8 * 8 / 8))%nat
  /\ ((8 mod 4 = 0)%nat ->
      String.length (dhash_lsb_first Mock.corner 8) = (8 * 8 / 4)%nat)
  /\ (8%nat = 8%nat -> String.length (dhash_lsb_first Mock.corner 8) = 16%nat).
Proof.
  apply (dhash_packs_lsb_first Mock.Image Mock.convert_resize
           (1%nat, Mock.corner) 8 Mock.corner).
  reflexivity.
Defined.

(** Against C2 as stated: on the grid whose only bright pixel is the top
    left one, the first comparison is the only true one; the code writes it
    as the lowest bit of the first byte, [01], where packing the most
    significant bit first gives [80].  And for the size 2 the four
    comparisons fill no byte: the string is empty, not of length
    [2 * 2 / 4 = 1]. *)
Lemma dhash_not_msb_first :
  _dhash Mock.Image Mock.convert_resize (1%nat, Mock.corner) 8
  = Ok "0100000000000000"%string
  /\ dhash_msb_first Mock.corner 8 = "8000000000000000"%string
  /\ _dhash Mock.Image Mock.convert_resize (1%nat, Mock.corner) 8
     <> Ok (dhash_msb_first Mock.corner 8)
  /\ _dhash Mock.Image Mock.convert_resize (1%nat, Mock.corner) 2 = Ok ""%string
  /\ (2 * 2 / 4 = 1)%nat.
Proof.
  repeat split; try (vm_compute; reflexivity).
  vm_compute. discriminate.
Qed.

(** *** The best hash *)

Section BestHash.

Variable Image : Type.
Variable Image_open : list Byte.byte -> result Image.
Variable n_frames : Image -> nat.
Variable convert_resize : Image -> nat -> nat -> result Pixels.
Variable Sha1 : Type.
Variable sha1_new : Sha1.
Variable sha1_update : Sha1 -> list Byte.byte -> Sha1.
Variable sha1_hexdigest : Sha1 -> string.

(** What hashlib documents: feeding a hash in pieces is feeding it the
    concatenation, and the digest of SHA-1 has 40 hexadecimal digits. *)
Hypothesis sha1_update_app :
  forall h a b, sha1_update (sha1_update h a) b = sha1_update h (a ++ b).
Hypothesis sha1_update_nil : forall h, sha1_update h [] = h.
Hypothesis sha1_hexdigest_length :
  forall h, String.length (sha1_hexdigest h) = 40%nat.

Local Abbreviation digest :=
  (ContentHash.sha1_digest sha1_new sha1_update sha1_hexdigest).
Local Abbreviation best_hash :=
  (get_best_hash Image Image_open n_frames convert_resize
     Sha1 sha1_new sha1_update sha1_hexdigest).
Local Abbreviation sha_hash :=
  (_sha_hash Sha1 sha1_new sha1_update sha1_hexdigest).

(** The chunked reads feed the hash the whole file. *)
Lemma read_loop_whole (chunk : nat) (h : Sha1) (rest : list Byte.byte) :
  (0 < chunk)%nat -> read_loop Sha1 sha1_update chunk h rest = sha1_update h rest.
Proof.
  intros Hchunk.
  funelim (read_loop Sha1 sha1_update chunk h rest).
  - destruct chunk as [|c]; [lia|].
    destruct rest as [|x r]; [now rewrite sha1_update_nil | discriminate].
  - match goal with
    | IH : _ -> read_loop _ _ _ _ _ = _ |- _ => rewrite IH by assumption
    end.
    rewrite sha1_update_app.
    match goal with E : firstn _ _ = _ :: _ |- _ => rewrite <- E end.
    now rewrite firstn_skipn.
Qed.

Lemma sha_hash_present (disk : Disk) (filename : string) (content : list Byte.byte) :
  disk !! filename = Some content ->
  sha_hash disk filename = Some (digest content).
Proof.
  intros H. unfold _sha_hash. rewrite H. f_equal.
  unfold ContentHash.sha1_digest. f_equal.
  apply read_loop_whole. lia.
Qed.

Lemma sha_hash_missing (disk : Disk) (filename : string) :
  disk !! filename = None -> sha_hash disk filename = None.
Proof. intros H. unfold _sha_hash. now rewrite H. Qed.

Lemma animated_frames (image : Image) :
  _is_animated Image n_frames image = true <-> (1 < n_frames image)%nat.
Proof.
  unfold _is_animated, Image_seek.
  destruct (Nat.ltb_spec 1 (n_frames image)); split; (lia || congruence || auto).
Qed.

(** C7, as the code has it: for a path whose bytes can be read, when
    Pillow raises no exception other than [IOError] the result is a string:
    the difference hash of 16 digits when the file decodes as an image of
    one frame whose pixel data loads, and otherwise the SHA-1 digest of the
    bytes, of 40 digits, a decoding failure that is an [IOError] (from
    [Image.open] or while the pixels load) being answered by that digest.
    An exception of Pillow that is not an [IOError], from [Image.open] or
    from the loading of the pixels of a still image, is not caught and
    leaves [get_best_hash].  For a path that cannot be read the result is
    [None] and no string. *)
Theorem get_best_hash_total (disk : Disk) (filename : string) :
  (disk !! filename = None -> best_hash disk filename = Ok None)
  /\ (forall content, disk !! filename = Some content ->
      (exists image getpixel,
         Image_open content = Ok image
         /\ (n_frames image <= 1)%nat
         /\ convert_resize image 9 8 = Ok getpixel
         /\ best_hash disk filename = Ok (Some (dhash_lsb_first getpixel 8))
         /\ String.length (dhash_lsb_first getpixel 8) = 16%nat)
      \/ ((Image_open content = IOError
           \/ exists image, Image_open content = Ok image
              /\ ((1 < n_frames image)%nat
                  \/ convert_resize image 9 8 = IOError))
          /\ best_hash disk filename = Ok (Some (digest content))
          /\ String.length (digest content) = 40%nat)
      \/ ((Image_open content = Raised
           \/ exists image, Image_open content = Ok image
              /\ (n_frames image <= 1)%nat
              /\ convert_resize image 9 8 = Raised)
          /\ best_hash disk filename = Raised)).
Proof.
  split.
  - intros Hnone. unfold get_best_hash, open_image. rewrite Hnone.
    now rewrite sha_hash_missing.
  - intros content Hsome.
    pose proof (sha_hash_present disk filename content Hsome) as Hsha.
    assert (Hlen : String.length (digest content) = 40%nat)
      by apply sha1_hexdigest_length.
    unfold get_best_hash, open_image. rewrite Hsome, Hsha.
    destruct (Image_open content) as [image| |] eqn:Hopen.
    + destruct (_is_animated Image n_frames image) eqn:Hanim.
      * right; left. split; [|split; [reflexivity | exact Hlen]].
        right. exists image. split; [reflexivity|]. left.
        now apply animated_frames.
      * assert (Hone : (n_frames image <= 1)%nat).
        { destruct (Nat.le_gt_cases (n_frames image) 1) as [Hle|Hgt]; [exact Hle|].
          apply animated_frames in Hgt. congruence. }
        destruct (convert_resize image 9 8) as [getpixel| |] eqn:Hload.
        -- rewrite (dhash_groups Image convert_resize image 8 getpixel Hload).
           left. exists image, getpixel.
           repeat split; auto.
        -- unfold _dhash. change (8 + 1)%nat with 9%nat. rewrite Hload.
           right; left. split; [|split; [reflexivity | exact Hlen]].
           right. exists image. split; [reflexivity|]. now right.
        -- unfold _dhash. change (8 + 1)%nat with 9%nat. rewrite Hload.
           right; right. split; [|reflexivity].
           right. exists image. now repeat split.
    + right; left. split; [now left | split; [reflexivity | exact Hlen]].
    + right; right. split; [now left | reflexivity].
Qed.

(** C9: for a file that decodes as an image of more than one frame the
    result is the SHA-1 digest of the bytes of the file, and it is not the
    difference hash of the image. *)
Theorem get_best_hash_animated
  (disk : Disk) (filename : string) (content : list Byte.byte) (image : Image) :
  disk !! filename = Some content ->
  Image_open content = Ok image ->
  (1 < n_frames image)%nat ->
  best_hash disk filename = Ok (Some (digest content))
  /\ (forall h, _dhash Image convert_resize image 8 = Ok h ->
      best_hash disk filename <> Ok (Some h)).
Proof.
  intros Hsome Hopen Hframes.
  assert (Hbest : best_hash disk filename = Ok (Some (digest content))).
  { unfold get_best_hash, open_image. rewrite Hsome, Hopen.
    apply animated_frames in Hframes. rewrite Hframes.
    now rewrite (sha_hash_present disk filename content Hsome). }
  split; [exact Hbest|].
  intros h Hd Heq. rewrite Hbest in Heq. injection Heq as <-.
  unfold _dhash in Hd.
  destruct (convert_resize image (8 + 1) 8) as [getpixel| |] eqn:Hload;
    try discriminate.
  pose proof (dhash_groups Image convert_resize image 8 getpixel Hload) as Hd'.
  unfold _dhash in Hd'. rewrite Hload in Hd'.
  assert (Hh : digest content = dhash_lsb_first getpixel 8) by congruence.
  pose proof (sha1_hexdigest_length (sha1_update sha1_new content)) as H40.
  unfold ContentHash.sha1_digest in Hh.
  rewrite Hh, dhash_lsb_first_length in H40.
  discriminate.
Qed.

End BestHash.

(** The best hash of a still image in the directory of three files. *)
Lemma get_best_hash_total_witness :
  (Mock.disk !! "still.png"%string = None ->
   get_best_hash Mock.Image Mock.Image_open Mock.n_frames Mock.convert_resize
     Mock.Sha1 Mock.sha1_new Mock.sha1_update Mock.sha1_hexdigest
     Mock.disk "still.png" = Ok None)
  /\ (forall content, Mock.disk !! "still.png"%string = Some content ->
      (exists image getpixel,
         Mock.Image_open content = Ok image
         /\ (Mock.n_frames image <= 1)%nat
         /\ Mock.convert_resize image 9 8 = Ok getpixel
         /\ get_best_hash Mock.Image Mock.Image_open Mock.n_frames
              Mock.convert_resize Mock.Sha1 Mock.sha1_new Mock.sha1_update
              Mock.sha1_hexdigest Mock.disk "still.png"
            = Ok (Some (dhash_lsb_first getpixel 8))
         /\ String.length (dhash_lsb_first getpixel 8) = 16%nat)
      \/ ((Mock.Image_open content = IOError
           \/ exists image, Mock.Image_open content = Ok image
              /\ ((1 < Mock.n_frames image)%nat
                  \/ Mock.convert_resize image 9 8 = IOError))
          /\ get_best_hash Mock.Image Mock.Image_open Mock.n_frames
               Mock.convert_resize Mock.Sha1 Mock.sha1_new Mock.sha1_update
               Mock.sha1_hexdigest Mock.disk "still.png"
             = Ok (Some (ContentHash.sha1_digest Mock.sha1_new Mock.sha1_update
                           Mock.sha1_hexdigest content))
          /\ String.length (ContentHash.sha1_digest Mock.sha1_new
                              Mock.sha1_update Mock.sha1_hexdigest content)
             = 40%nat)
      \/ ((Mock.Image_open content = Raised
           \/ exists image, Mock.Image_open content = Ok image
              /\ (Mock.n_frames image <= 1)%nat
              /\ Mock.convert_resize image 9 8 = Raised)
          /\ get_best_hash Mock.Image Mock.Image_open Mock.n_frames
               Mock.convert_resize Mock.Sha1 Mock.sha1_new Mock.sha1_update
               Mock.sha1_hexdigest Mock.disk "still.png" = Raised)).
Proof.
  apply (get_best_hash_total Mock.Image Mock.Image_open Mock.n_frames
           Mock.convert_resize Mock.Sha1 Mock.sha1_new Mock.sha1_update
           Mock.sha1_hexdigest).
  - intros h a b. unfold Mock.sha1_update. symmetry. apply app_assoc.
  - intros h. apply app_nil_r.
  - intros h. reflexivity.
Defined.

(** The best hash of the file of two frames. *)
Lemma get_best_hash_animated_witness :
  get_best_hash Mock.Image Mock.Image_open Mock.n_frames Mock.convert_resize
    Mock.Sha1 Mock.sha1_new Mock.sha1_update Mock.sha1_hexdigest
    Mock.disk "anim.gif"
  = Ok (Some (ContentHash.sha1_digest Mock.sha1_new Mock.sha1_update
                Mock.sha1_hexdigest [x47; x49; x46]))
  /\ (forall h, _dhash Mock.Image Mock.convert_resize (2%nat, Mock.corner) 8 = Ok h ->
      get_best_hash Mock.Image Mock.Image_open Mock.n_frames Mock.convert_resize
        Mock.Sha1 Mock.sha1_new Mock.sha1_update Mock.sha1_hexdigest
        Mock.disk "anim.gif" <> Ok (Some h)).
Proof.
  apply (get_best_hash_animated Mock.Image Mock.Image_open Mock.n_frames
           Mock.convert_resize Mock.Sha1 Mock.sha1_new Mock.sha1_update
           Mock.sha1_hexdigest).
  - intros h a b. unfold Mock.sha1_update. symmetry. apply app_assoc.
  - intros h. apply app_nil_r.
  - intros h. reflexivity.
  - reflexivity.
  - reflexivity.
  - simpl. lia.
Defined.

(** Against C7 as stated: a path that cannot be read (here, one that is
    not in the directory) makes [Image.open] and then [open] raise
    [IOError], and the result is [None], not a string; and on a file that
    can be read and on which [Image.open] raises an exception that is not
    an [IOError], that exception leaves [get_best_hash]: the failure to
    decode is not answered by the digest. *)
Lemma get_best_hash_unreadable :
  get_best_hash Mock.Image Mock.Image_open Mock.n_frames Mock.convert_resize
    Mock.Sha1 Mock.sha1_new Mock.sha1_update Mock.sha1_hexdigest
    Mock.disk "gone.jpg" = Ok None
  /\ Mock.disk !! "bomb.png"%string = Some [x42; x4f; x4d; x42]
  /\ get_best_hash Mock.Image Mock.Image_open Mock.n_frames Mock.convert_resize
       Mock.Sha1 Mock.sha1_new Mock.sha1_update Mock.sha1_hexdigest
       Mock.disk "bomb.png" = Raised.
Proof. repeat split; reflexivity. Qed.

End FileHasherProofs.

(** ** Properties of the deduplicator *)

Module DeduplicatorProofs.

Import FileHasher Deduplicator.

(** *** The stable descending sort *)

Section Sorting.

Context {A : Type} (key : A -> Z).

Lemma insert_desc_perm (x : A) (l : list A) :
  Permutation (Py.insert_desc key x l) (x :: l).
Proof.
  induction l as [|y r IH]; simpl.
  - apply Permutation_refl.
  - destruct (key x <? key y).
    + apply Permutation_trans with (y :: x :: r).
      * now apply perm_skip.
      * apply perm_swap.
    + apply Permutation_refl.
Qed.

Lemma sorted_reverse_perm (l : list A) :
  Permutation (Py.sorted_reverse key l) l.
Proof.
  induction l as [|x r IH]; simpl.
  - apply perm_nil.
  - apply Permutation_trans with (x :: Py.sorted_reverse key r).
    + apply insert_desc_perm.
    + now apply perm_skip.
Qed.

Lemma sorted_reverse_nil (l : list A) :
  Py.sorted_reverse key l = [] -> l = [].
Proof.
  intros H. pose proof (sorted_reverse_perm l) as P. rewrite H in P.
  now apply Permutation_nil.
Qed.

(** The head of the sorted list has the largest key, and it is the first
    element of the input with that key: all the elements before it have a
    strictly smaller one. *)
Lemma sorted_reverse_head (l : list A) (best : A) (others : list A) :
  Py.sorted_reverse key l = best :: others ->
  (forall x, In x l -> key x <= key best)
  /\ exists pre post, l = pre ++ best :: post
                      /\ forall x, In x pre -> key x < key best.
Proof.
  revert best others. induction l as [|x r IH]; intros best others H.
  - discriminate.
  - simpl in H.
    destruct (Py.sorted_reverse key r) as [|y s] eqn:Hr.
    + apply sorted_reverse_nil in Hr. subst r.
      simpl in H. injection H as <- <-. split.
      * intros z [<- | []]. lia.
      * exists [], []. split; [reflexivity | intros z []].
    + destruct (IH y s eq_refl) as (Hmax & pre & post & Hsplit & Hpre).
      simpl in H. destruct (Z.ltb_spec (key x) (key y)) as [Hlt | Hge].
      * injection H as <- <-. split.
        -- intros z [<- | Hz]; [lia | now apply Hmax].
        -- exists (x :: pre), post. split; [simpl; now rewrite Hsplit|].
           intros z [<- | Hz]; [exact Hlt | now apply Hpre].
      * injection H as <- <-. split.
        -- intros z [<- | Hz]; [lia | specialize (Hmax z Hz); lia].
        -- exists [], r. split; [reflexivity | intros z []].
Qed.

End Sorting.

(** *** The resolution policy *)

Section ResolutionPolicy.

Variable size : string -> Z.

Lemma choose_best_file_some (files : list File) :
  files <> [] -> exists best others, _choose_best_file size files = Some (best, others).
Proof.
  intros Hne. unfold _choose_best_file.
  destruct (Py.sorted_reverse (fun f => size (path f)) files) as [|best others] eqn:E.
  - apply sorted_reverse_nil in E. contradiction.
  - now exists best, others.
Qed.

Lemma choose_best_file_sorted (files : list File) (best : File) (others : list File) :
  _choose_best_file size files = Some (best, others) ->
  Py.sorted_reverse (fun f => size (path f)) files = best :: others.
Proof.
  unfold _choose_best_file.
  destruct (Py.sorted_reverse (fun f => size (path f)) files); [discriminate|].
  now intros [= <- <-].
Qed.

Lemma choose_best_file_perm (files : list File) (best : File) (others : list File) :
  _choose_best_file size files = Some (best, others) ->
  Permutation (best :: others) files.
Proof.
  intros H. apply choose_best_file_sorted in H. rewrite <- H.
  apply sorted_reverse_perm.
Qed.

(** C4: of a non-empty list of files [_choose_best_file] returns as best
    a file of the largest size, the first one of the list with that size
    (every file before it is strictly smaller); and when the list holds
    three files of 10, 50 and 30 bytes, in any order, the best is the file
    of 50 bytes and the others are the two other files. *)
Theorem choose_best_file_largest_first (files : list File) :
  files <> [] ->
  exists best others,
    _choose_best_file size files = Some (best, others)
    /\ (forall f, In f files -> size (path f) <= size (path best))
    /\ (exists pre post,
          files = pre ++ best :: post
          /\ forall f, In f pre -> size (path f) < size (path best))
    /\ (forall fa fb fc,
          Permutation files [fa; fb; fc] ->
          size (path fa) = 10 -> size (path fb) = 50 -> size (path fc) = 30 ->
          best = fb /\ Permutation others [fa; fc]).
Proof.
  intros Hne.
  destruct (choose_best_file_some files Hne) as (best & others & Hc).
  exists best, others. split; [exact Hc|].
  pose proof (choose_best_file_perm files best others Hc) as Hperm.
  destruct (sorted_reverse_head _ files best others (choose_best_file_sorted _ _ _ Hc))
    as (Hmax & Hfirst).
  split; [exact Hmax | split; [exact Hfirst|]].
  intros fa fb fc P Ha Hb Hc'.
  assert (Hbest : best = fb).
  { assert (Hin : In best [fa; fb; fc]).
    { apply (Permutation_in best P), (Permutation_in best Hperm). now left. }
    assert (Hfb : In fb files).
    { apply (Permutation_in fb (Permutation_sym P)). right. now left. }
    specialize (Hmax fb Hfb).
    destruct Hin as [<- | [<- | [<- | []]]]; [lia | reflexivity | lia]. }
  split; [exact Hbest|]. subst best.
  apply Permutation_cons_inv with (a := fb).
  apply Permutation_trans with files; [exact Hperm|].
  apply Permutation_trans with [fa; fb; fc]; [exact P | apply perm_swap].
Qed.

(** C10: of a non-empty list of files [_choose_best_file] returns a best
    file and others that together are a permutation of the list. *)
Theorem choose_best_file_permutation (files : list File) :
  files <> [] ->
  exists best others,
    _choose_best_file size files = Some (best, others)
    /\ Permutation (best :: others) files.
Proof.
  intros Hne.
  destruct (choose_best_file_some files Hne) as (best & others & Hc).
  exists best, others. split; [exact Hc|].
  now apply choose_best_file_perm.
Qed.

End ResolutionPolicy.

(** *** The match finder *)

Lemma hamming_distance_lengths (s1 s2 : string) :
  String.length s1 <> String.length s2 -> hamming_distance s1 s2 = 9999.
Proof.
  intros H. unfold hamming_distance.
  destruct (Nat.eqb_spec (String.length s1) (String.length s2)); [contradiction|].
  reflexivity.
Qed.

(** The three ways a candidate is rejected. *)
Lemma check_hash_match_false (store : Store) (file : File) (search_hash : string) :
  _check_hash_match store file search_hash = false
  <-> (hash file = None
       \/ (exists u, In u (File_urls store file)
                     /\ (truthy (album_id u) = true \/ processed u = false))
       \/ (exists h, hash file = Some h
                     /\ 4 <= hamming_distance search_hash (full_hash h))).
Proof.
  unfold _check_hash_match.
  destruct (hash file) as [h|]; [|split; [now left | reflexivity]].
  destruct (existsb _ (File_urls store file)) eqn:Hany.
  - split; [intros _ | reflexivity].
    right; left. apply existsb_exists in Hany. destruct Hany as (u & Hu & Hor).
    exists u. split; [exact Hu|].
    apply orb_true_iff in Hor. destruct Hor as [Ha | Hp]; [now left|].
    right. now apply negb_true_iff.
  - destruct (Z.geb_spec (hamming_distance search_hash (full_hash h)) 4) as [Hge | Hlt].
    + split; [intros _ | reflexivity]. right; right. exists h. split; [reflexivity | lia].
    + split; [discriminate|].
      intros [Hnone | [(u & Hu & Hor) | (h' & Hh & Hd)]].
      * discriminate.
      * assert (Hex : existsb (fun u => truthy (album_id u) || negb (processed u))
                        (File_urls store file) = true).
        { apply existsb_exists. exists u. split; [exact Hu|].
          apply orb_true_iff. destruct Hor as [Ha | Hp]; [now left|].
          right. now apply negb_true_iff. }
        congruence.
      * injection Hh as <-. lia.
Qed.

(** The count of the code, on strings of one length, is the number of
    positions at which they differ. *)
Lemma differing_positions_cons (a b : ascii) (r1 r2 : string) :
  MatchSpec.differing_positions (String a r1) (String b r2)
  = ((if Ascii.eqb a b then 0 else 1) + MatchSpec.differing_positions r1 r2)%nat.
Proof.
  pose (differ := fun s1 s2 (i : nat) =>
         match String.get i s1, String.get i s2 with
         | Some x, Some y => negb (Ascii.eqb x y)
         | _, _ => false
         end).
  change (length (List.filter (differ (String a r1) (String b r2))
                    (seq 0 (String.length (String a r1))))
          = ((if Ascii.eqb a b then 0 else 1)
             + length (List.filter (differ r1 r2) (seq 0 (String.length r1))))%nat).
  assert (Hshift : forall l,
    length (List.filter (differ (String a r1) (String b r2)) (map S l))
    = length (List.filter (differ r1 r2) l)).
  { induction l as [|i l IH]; [reflexivity|].
    cbn [map List.filter].
    change (differ (String a r1) (String b r2) (S i)) with (differ r1 r2 i).
    destruct (differ r1 r2 i); cbn [length]; now rewrite IH. }
  cbn [String.length]. rewrite <- cons_seq, <- seq_shift.
  cbn [List.filter].
  change (differ (String a r1) (String b r2) 0%nat) with (negb (Ascii.eqb a b)).
  destruct (Ascii.eqb a b); cbn [negb length]; now rewrite Hshift.
Qed.

Lemma count_differences_positions (s1 s2 : string) :
  String.length s1 = String.length s2 ->
  count_differences s1 s2 = Z.of_nat (MatchSpec.differing_positions s1 s2).
Proof.
  revert s2. induction s1 as [|a r1 IH]; intros [|b r2] Hlen; try discriminate.
  - reflexivity.
  - simpl in Hlen. injection Hlen as Hlen.
    rewrite differing_positions_cons. cbn [count_differences].
    rewrite (IH r2 Hlen). destruct (Ascii.eqb a b); lia.
Qed.

Lemma hamming_distance_rejects (s1 s2 : string) :
  4 <= hamming_distance s1 s2
  <-> String.length s1 <> String.length s2
      \/ (4 <= MatchSpec.differing_positions s1 s2)%nat.
Proof.
  unfold hamming_distance.
  destruct (Nat.eqb_spec (String.length s1) (String.length s2)) as [Hlen | Hne]; simpl.
  - rewrite (count_differences_positions s1 s2 Hlen). split; [right; lia|].
    intros [H | H]; [contradiction | lia].
  - split; [now left | lia].
Qed.

Lemma truthy_named (u : URL) :
  truthy (album_id u) = true <-> MatchSpec.album_named u.
Proof.
  unfold truthy, MatchSpec.album_named.
  destruct (album_id u) as [[|c s]|]; split; try discriminate; try tauto.
Qed.

Lemma check_hash_match_rejected (store : Store) (file : File) (search_hash : string) :
  _check_hash_match store file search_hash = false
  <-> MatchSpec.rejected store file search_hash.
Proof.
  rewrite check_hash_match_false. unfold MatchSpec.rejected.
  split; (intros [H | [(u & Hu & Hor) | (h & Hh & Hd)]];
          [now left
          | right; left; exists u; split; [exact Hu|];
            destruct Hor as [Ha | Hp]; [left; now apply truthy_named | now right]
          | right; right; exists h; split; [exact Hh|];
            now apply hamming_distance_rejects]).
Qed.

Section MatchFinderProofs.

Variable split_hash : string -> string * string * string * string.
Variable fetch : list File -> list File.

Lemma find_matching_files_in (store : Store) (search_hash : string) (ignore_id : Z)
  (file : File) :
  In file (_find_matching_files split_hash fetch store search_hash ignore_id)
  <-> In file (query_candidates split_hash fetch store search_hash)
      /\ _check_hash_match store file search_hash = true.
Proof. unfold _find_matching_files. apply filter_In. Qed.


(** C3, as the code has it: a candidate of the partition query is left
    out of the matches if and only if it has no fingerprint, or one of its
    URLs has an album id that is not empty (an album id that is null or is
    the empty string does not count) or is not processed, or its full
    fingerprint has another length than the searched one or differs from
    it at 4 positions or more; a candidate for which none of the three
    holds is returned. *)
Theorem find_matching_files_filter
  (store : Store) (search_hash : string) (ignore_id : Z) (file : File) :
  In file (query_candidates split_hash fetch store search_hash) ->
  (~ In file (_find_matching_files split_hash fetch store search_hash ignore_id)
   <-> MatchSpec.rejected store file search_hash)
  /\ (In file (_find_matching_files split_hash fetch store search_hash ignore_id)
      <-> ~ MatchSpec.rejected store file search_hash).
Proof.
  intros Hcand.
  rewrite <- check_hash_match_rejected, find_matching_files_in.
  destruct (_check_hash_match store file search_hash); split; split;
    intuition congruence.
Qed.

(** C5: on strings of unequal lengths [hamming_distance] is 9999, which is
    above the threshold 4, so a file whose fingerprint has another length
    than the searched one fails [_check_hash_match] and is in no list of
    matches. *)
Theorem hamming_distance_unequal_lengths (s1 s2 : string) :
  String.length s1 <> String.length s2 ->
  hamming_distance s1 s2 = 9999
  /\ 4 < hamming_distance s1 s2
  /\ (forall store file h,
        hash file = Some h -> full_hash h = s2 ->
        _check_hash_match store file s1 = false)
  /\ (forall store ignore_id file h,
        hash file = Some h -> full_hash h = s2 ->
        ~ In file (_find_matching_files split_hash fetch store s1 ignore_id)).
Proof.
  intros Hlen. pose proof (hamming_distance_lengths s1 s2 Hlen) as H.
  assert (Hcheck : forall store file h,
            hash file = Some h -> full_hash h = s2 ->
            _check_hash_match store file s1 = false).
  { intros store file h Hh Hf. apply check_hash_match_false.
    right; right. exists h. split; [exact Hh|]. rewrite Hf, H. lia. }
  split; [exact H | split; [rewrite H; lia | split; [exact Hcheck|]]].
  intros store ignore_id file h Hh Hf Hin.
  apply find_matching_files_in in Hin. destruct Hin as [_ Hin].
  rewrite (Hcheck store file h Hh Hf) in Hin. discriminate.
Qed.

(** From here on the database returns the rows a query selects, each
    once, in some order. *)
Hypothesis fetch_permutation : forall rows, Permutation (fetch rows) rows.

Lemma query_candidates_table (store : Store) (search_hash : string) (file : File) :
  In file (query_candidates split_hash fetch store search_hash) ->
  In file (files store).
Proof.
  unfold query_candidates.
  destruct (split_hash search_hash) as [[[sp0 sp1] sp2] sp3].
  intros H. apply (Permutation_in file (fetch_permutation _)) in H.
  apply filter_In in H. tauto.
Qed.

Lemma query_unfinished_table (store : Store) (f : File) :
  In f (Sweep.query_unfinished fetch store) ->
  In f (files store) /\ hash f = None /\ downloaded f = true.
Proof.
  unfold Sweep.query_unfinished. intros H.
  apply (Permutation_in f (fetch_permutation _)) in H.
  apply filter_In in H. destruct H as [H Hdown].
  apply filter_In in H. destruct H as [H Hhash].
  split; [exact H | split; [|exact Hdown]].
  destruct (hash f); [discriminate | reflexivity].
Qed.


End MatchFinderProofs.


(** *** The orphan pruner *)

Lemma urls_any_urls (store store' : Store) (file : File) :
  urls store' = urls store -> urls_any store' file = urls_any store file.
Proof. intros H. unfold urls_any. now rewrite H. Qed.

Lemma urls_any_File_urls (store : Store) (file : File) :
  urls_any store file = true <-> File_urls store file <> [].
Proof.
  unfold urls_any, File_urls.
  induction (urls store) as [|u us IH]; simpl.
  - split; [discriminate | congruence].
  - destruct (file_id u =? id file); simpl.
    + split; [discriminate | reflexivity].
    + exact IH.
Qed.

Lemma filter_twice {A} (f : A -> bool) (l : list A) :
  List.filter f (List.filter f l) = List.filter f l.
Proof.
  induction l as [|x l IH]; simpl; [reflexivity|].
  destruct (f x) eqn:E; simpl; [rewrite E; now f_equal | exact IH].
Qed.

Lemma filter_none {A} (f : A -> bool) (l : list A) :
  List.filter (fun x => negb (f x)) (List.filter f l) = [].
Proof.
  induction l as [|x l IH]; simpl; [reflexivity|].
  destruct (f x) eqn:E; simpl; [now rewrite E | exact IH].
Qed.

Lemma prune_files (store : Store) (file : File) :
  In file (files (fst (_prune store)))
  <-> In file (files store) /\ urls_any store file = true.
Proof. unfold _prune. simpl. apply filter_In. Qed.

(** C8: one [_prune] deletes every file without a URL and keeps the
    others and the URLs, and [_prune] on the store it leaves deletes no
    row and leaves that store as it is. *)
Theorem prune_idempotent (store : Store) :
  (forall file, In file (files (fst (_prune store)))
                <-> In file (files store) /\ File_urls store file <> [])
  /\ snd (_prune store)
     = Z.of_nat (length (List.filter
                           (fun f => match File_urls store f with
                                     | [] => true
                                     | _ => false
                                     end) (files store)))
  /\ urls (fst (_prune store)) = urls store
  /\ _prune (fst (_prune store)) = (fst (_prune store), 0).
Proof.
  split; [|split; [|split]].
  - intros file. rewrite prune_files. now rewrite urls_any_File_urls.
  - unfold _prune. simpl. do 2 f_equal.
    apply filter_ext. intros f.
    pose proof (urls_any_File_urls store f) as H.
    destruct (urls_any store f), (File_urls store f); simpl; try reflexivity.
    + exfalso. now apply (proj1 H).
    + assert (false = true) by (apply H; discriminate). discriminate.
  - reflexivity.
  - unfold _prune at 1. simpl fst.
    set (kept := List.filter (fun f => urls_any store f) (files store)).
    assert (Hany : forall f,
      urls_any {| files := kept; urls := urls store |} f = urls_any store f)
      by (intros f; now apply urls_any_urls).
    unfold _prune. simpl files. simpl urls.
    rewrite (filter_ext _ (fun f => urls_any store f) Hany).
    rewrite (filter_ext (fun f => negb (urls_any {| files := kept; urls := urls store |} f))
               (fun f => negb (urls_any store f)))
      by (intros f; now rewrite Hany).
    unfold kept. rewrite filter_twice, filter_none. reflexivity.
Qed.

(** *** Upgrading the losers to the survivor *)

Section Upgrade.

Variable size : string -> Z.

(** The loop over [others], with the record store and the directory apart. *)
Lemma upgrade_loop_files (best : File) (others : list File) (world : Store * Disk) :
  files (fst (fold_left (fun w o => _upgrade_file w best o) others world))
  = files (fst world).
Proof.
  revert world. induction others as [|o os IH]; intros [store disk]; simpl.
  - reflexivity.
  - rewrite IH. reflexivity.
Qed.

Lemma upgrade_loop_urls (best : File) (others : list File) (world : Store * Disk) :
  ~ In (id best) (map id others) ->
  urls (fst (fold_left (fun w o => _upgrade_file w best o) others world))
  = map (fun u =>
           if existsb (fun o => file_id u =? id o) others
           then {| file_id := id best; album_id := album_id u;
                   processed := processed u |}
           else u)
        (urls (fst world)).
Proof.
  revert world. induction others as [|o os IH]; intros [store disk] Hbest.
  - simpl. now rewrite map_id.
  - simpl fold_left. rewrite IH by (intros Hin; apply Hbest; now right).
    simpl. rewrite map_map. apply map_ext. intros u.
    unfold reassign. destruct (Z.eqb_spec (file_id u) (id o)) as [Heq | Hne]; simpl.
    + replace (existsb (fun o0 => id best =? id o0) os) with false; [reflexivity|].
      symmetry. apply not_true_is_false. intros Hex.
      apply existsb_exists in Hex. destruct Hex as (o' & Ho' & Heq').
      apply Hbest. right. apply in_map_iff. exists o'.
      split; [symmetry; now apply Z.eqb_eq | exact Ho'].
    + reflexivity.
Qed.

Lemma upgrade_loop_disk (best : File) (others : list File) (world : Store * Disk)
  (p : string) :
  snd (fold_left (fun w o => _upgrade_file w best o) others world) !! p
  = if existsb (fun o => String.eqb (path o) p) others then None
    else snd world !! p.
Proof.
  revert world. induction others as [|o os IH]; intros [store disk].
  - reflexivity.
  - simpl fold_left. rewrite IH. simpl.
    destruct (existsb (fun o0 => String.eqb (path o0) p) os);
      [now rewrite orb_true_r|].
    rewrite orb_false_r. unfold is_file, delete_file.
    destruct (String.eqb_spec (path o) p) as [-> | Hne].
    + destruct (disk !! p) eqn:E; [apply lookup_delete_eq | exact E].
    + destruct (disk !! path o); [now apply lookup_delete_ne | reflexivity].
Qed.


End Upgrade.

(** *** The properties on the store of three files *)

(** The best of the three files of 10, 50 and 30 bytes. *)
Lemma choose_best_file_largest_first_witness :
  exists best others,
    _choose_best_file Mock.size [Mock.file_a; Mock.file_b; Mock.file_c]
    = Some (best, others)
    /\ (forall f, In f [Mock.file_a; Mock.file_b; Mock.file_c] ->
          Mock.size (path f) <= Mock.size (path best))
    /\ (exists pre post,
          [Mock.file_a; Mock.file_b; Mock.file_c] = pre ++ best :: post
          /\ forall f, In f pre -> Mock.size (path f) < Mock.size (path best))
    /\ (forall fa fb fc,
          Permutation [Mock.file_a; Mock.file_b; Mock.file_c] [fa; fb; fc] ->
          Mock.size (path fa) = 10 -> Mock.size (path fb) = 50 ->
          Mock.size (path fc) = 30 ->
          best = fb /\ Permutation others [fa; fc]).
Proof.
  apply (choose_best_file_largest_first Mock.size
           [Mock.file_a; Mock.file_b; Mock.file_c]).
  discriminate.
Defined.

(** The best and the others of the three files. *)
Lemma choose_best_file_permutation_witness :
  exists best others,
    _choose_best_file Mock.size [Mock.file_a; Mock.file_b; Mock.file_c]
    = Some (best, others)
    /\ Permutation (best :: others) [Mock.file_a; Mock.file_b; Mock.file_c].
Proof.
  apply (choose_best_file_permutation Mock.size
           [Mock.file_a; Mock.file_b; Mock.file_c]).
  discriminate.
Defined.

(** The file 2 as a candidate of the search for the fingerprint of the file 1. *)
Lemma find_matching_files_filter_witness :
  (~ In Mock.file_b
       (_find_matching_files Mock.split_hash Mock.fetch Mock.store
          "00ff00ff00ff00ff" 3)
   <-> MatchSpec.rejected Mock.store Mock.file_b "00ff00ff00ff00ff")
  /\ (In Mock.file_b
        (_find_matching_files Mock.split_hash Mock.fetch Mock.store
           "00ff00ff00ff00ff" 3)
      <-> ~ MatchSpec.rejected Mock.store Mock.file_b "00ff00ff00ff00ff").
Proof.
  apply (find_matching_files_filter Mock.split_hash Mock.fetch Mock.store
           "00ff00ff00ff00ff" 3 Mock.file_b).
  vm_compute. left. reflexivity.
Defined.

(** Against C3 as stated: the file 1 has the searched fingerprint and one
    processed URL whose album id is the empty string; the URL is
    album-tagged (its album id is not null), and the file is a candidate
    that is returned as a match. *)
Lemma find_matching_files_blank_album :
  In Mock.file_a
    (query_candidates Mock.split_hash Mock.fetch Mock.store_blank_album
       "00ff00ff00ff00ff")
  /\ In Mock.url_blank_album (File_urls Mock.store_blank_album Mock.file_a)
  /\ MatchSpec.album_tagged Mock.url_blank_album
  /\ In Mock.file_a
       (_find_matching_files Mock.split_hash Mock.fetch Mock.store_blank_album
          "00ff00ff00ff00ff" 3).
Proof.
  split; [left; reflexivity|].
  split; [left; reflexivity|].
  split; [discriminate | left; reflexivity].
Qed.


(** A difference hash against a SHA-1 digest. *)
Lemma hamming_distance_unequal_lengths_witness :
  hamming_distance "00ff00ff00ff00ff" "da39a3ee5e6b4b0d3255bfef95601890afd80709"
  = 9999
  /\ 4 < hamming_distance "00ff00ff00ff00ff"
           "da39a3ee5e6b4b0d3255bfef95601890afd80709"
  /\ (forall store file h,
        hash file = Some h ->
        full_hash h = "da39a3ee5e6b4b0d3255bfef95601890afd80709"%string ->
        _check_hash_match store file "00ff00ff00ff00ff" = false)
  /\ (forall store ignore_id file h,
        hash file = Some h ->
        full_hash h = "da39a3ee5e6b4b0d3255bfef95601890afd80709"%string ->
        ~ In file (_find_matching_files Mock.split_hash Mock.fetch store
                     "00ff00ff00ff00ff" ignore_id)).
Proof.
  apply (hamming_distance_unequal_lengths Mock.split_hash Mock.fetch
           "00ff00ff00ff00ff" "da39a3ee5e6b4b0d3255bfef95601890afd80709").
  simpl. lia.
Defined.



End DeduplicatorProofs.

(** ** The Hamming distance *)

Module HammingProofs.

Import FileHasher.

Lemma count_differences_sym (s1 s2 : string) :
  count_differences s1 s2 = count_differences s2 s1.
Proof.
  revert s2. induction s1 as [|a r1 IH]; intros [|b r2]; simpl; try reflexivity.
  rewrite IH, (Ascii.eqb_sym a b). reflexivity.
Qed.

Lemma count_differences_bounds (s1 s2 : string) :
  0 <= count_differences s1 s2 <= Z.of_nat (String.length s1).
Proof.
  revert s2. induction s1 as [|a r1 IH]; intros [|b r2]; simpl String.length;
    simpl count_differences; try lia.
  specialize (IH r2). destruct (Ascii.eqb a b); lia.
Qed.

Lemma count_differences_zero (s1 s2 : string) :
  String.length s1 = String.length s2 ->
  count_differences s1 s2 = 0 -> s1 = s2.
Proof.
  revert s2. induction s1 as [|a r1 IH]; intros [|b r2] Hlen Hd;
    try discriminate; [reflexivity|].
  simpl in Hlen, Hd. injection Hlen as Hlen.
  pose proof (count_differences_bounds r1 r2).
  destruct (Ascii.eqb_spec a b) as [-> | Hne]; [|lia].
  f_equal. apply IH; [exact Hlen | lia].
Qed.

Lemma count_differences_same (s : string) : count_differences s s = 0.
Proof.
  induction s as [|a r IH]; simpl; [reflexivity|].
  rewrite Ascii.eqb_refl, IH. reflexivity.
Qed.

(** Where two strings of one length are each cut in two at the same place,
    the differences add up. *)
Lemma count_differences_append (a a' b b' : string) :
  String.length a = String.length a' ->
  count_differences (String.append a b) (String.append a' b')
  = count_differences a a' + count_differences b b'.
Proof.
  revert a'. induction a as [|x r IH]; intros [|x' r'] Hlen; try discriminate.
  - reflexivity.
  - simpl in Hlen. injection Hlen as Hlen.
    change (count_differences (String x (String.append r b))
              (String x' (String.append r' b'))
            = count_differences (String x r) (String x' r')
              + count_differences b b').
    simpl. rewrite (IH r' Hlen). lia.
Qed.

Lemma hamming_distance_same (s : string) : hamming_distance s s = 0.
Proof.
  unfold hamming_distance. rewrite Nat.eqb_refl. apply count_differences_same.
Qed.

(** A distance under the sentinel is a count on strings of one length. *)
Lemma hamming_distance_counted (s1 s2 : string) :
  hamming_distance s1 s2 < 9999 ->
  String.length s1 = String.length s2
  /\ hamming_distance s1 s2 = count_differences s1 s2.
Proof.
  unfold hamming_distance.
  destruct (Nat.eqb_spec (String.length s1) (String.length s2)); simpl; [tauto | lia].
Qed.

(** The distance does not depend on the order of its arguments, the
    sentinel of unequal lengths included. *)
Theorem hamming_distance_symmetric (s1 s2 : string) :
  hamming_distance s1 s2 = hamming_distance s2 s1.
Proof.
  unfold hamming_distance.
  rewrite (Nat.eqb_sym (String.length s1)), count_differences_sym. reflexivity.
Qed.

(** The distance is 0 exactly between a string and itself. *)
Theorem hamming_distance_zero_iff (s1 s2 : string) :
  hamming_distance s1 s2 = 0 <-> s1 = s2.
Proof.
  unfold hamming_distance. split.
  - destruct (Nat.eqb_spec (String.length s1) (String.length s2)) as [Hlen | Hne];
      simpl; [|discriminate].
    now apply count_differences_zero.
  - intros ->. rewrite Nat.eqb_refl. simpl. apply count_differences_same.
Qed.

(** The distance is the sentinel 9999 on unequal lengths and else a count
    between 0 and the common length. *)
Theorem hamming_distance_range (s1 s2 : string) :
  (String.length s1 = String.length s2
   /\ 0 <= hamming_distance s1 s2 <= Z.of_nat (String.length s1))
  \/ (String.length s1 <> String.length s2 /\ hamming_distance s1 s2 = 9999).
Proof.
  unfold hamming_distance.
  destruct (Nat.eqb_spec (String.length s1) (String.length s2)) as [Hlen | Hne]; simpl.
  - left. split; [exact Hlen | apply count_differences_bounds].
  - right. split; [exact Hne | reflexivity].
Qed.

Lemma count_differences_triangle (s1 s2 s3 : string) :
  String.length s1 = String.length s2 ->
  String.length s2 = String.length s3 ->
  count_differences s1 s3 <= count_differences s1 s2 + count_differences s2 s3.
Proof.
  revert s2 s3. induction s1 as [|a r1 IH]; intros [|b r2] [|c r3] H12 H23;
    try discriminate H12; try discriminate H23; simpl; [lia|].
  simpl in H12, H23. injection H12 as H12. injection H23 as H23.
  specialize (IH r2 r3 H12 H23).
  destruct (Ascii.eqb_spec a c), (Ascii.eqb_spec a b), (Ascii.eqb_spec b c);
    try lia; congruence.
Qed.

(** On strings of one length the distance obeys the triangle inequality. *)
Theorem hamming_distance_triangle (s1 s2 s3 : string) :
  String.length s1 = String.length s2 ->
  String.length s2 = String.length s3 ->
  hamming_distance s1 s3 <= hamming_distance s1 s2 + hamming_distance s2 s3.
Proof.
  intros H12 H23.
  assert (H13 : String.length s1 = String.length s3) by congruence.
  unfold hamming_distance.
  rewrite (proj2 (Nat.eqb_eq _ _) H12), (proj2 (Nat.eqb_eq _ _) H23),
    (proj2 (Nat.eqb_eq _ _) H13).
  simpl. now apply count_differences_triangle.
Qed.

(** Three fingerprints of 16 digits. *)
Lemma hamming_distance_triangle_witness :
  hamming_distance "00ff00ff00ff00ff" "00ff00000000ffff"
  <= hamming_distance "00ff00ff00ff00ff" "00ff00ff00ff00fe"
     + hamming_distance "00ff00ff00ff00fe" "00ff00000000ffff".
Proof.
  apply (hamming_distance_triangle
           "00ff00ff00ff00ff" "00ff00ff00ff00fe" "00ff00000000ffff");
    reflexivity.
Defined.

End HammingProofs.

(** ** More on the difference hash *)

Module DifferenceHashProofs.

Import FileHasher DifferenceHash HexString FileHasherProofs.

Lemma hex_digit_lower (d : Z) : is_lower_hex (Py.hex_digit d) = true.
Proof.
  destruct d as [|p|p]; [reflexivity| |reflexivity].
  do 5 (try (destruct p as [p|p|]; try reflexivity)).
Qed.

Lemma all_lower_hex_append (s t : string) :
  all_lower_hex (String.append s t) = all_lower_hex s && all_lower_hex t.
Proof.
  unfold all_lower_hex. induction s as [|c s IH]; [reflexivity|].
  change (String.append (String c s) t) with (String c (String.append s t)).
  simpl. rewrite IH. now rewrite andb_assoc.
Qed.

Lemma pack_groups_lower_hex (value : list bool -> Z) (bits : list bool) :
  all_lower_hex (Py.join (pack_groups value bits)) = true.
Proof.
  induction bits as [bits Hshort | b0 b1 b2 b3 b4 b5 b6 b7 rest IH] using groups_ind.
  - destruct bits as [|b0 [|b1 [|b2 [|b3 [|b4 [|b5 [|b6 [|b7 rest]]]]]]]];
      try reflexivity.
    simpl in Hshort. lia.
  - simpl pack_groups. rewrite join_cons, all_lower_hex_append, IH.
    unfold hex_pair, all_lower_hex. simpl. now rewrite !hex_digit_lower.
Qed.

(** The hash consists of the digits 0 to 9 and a to f only. *)
Theorem dhash_lower_hex
  (Image : Type) (convert_resize : Image -> nat -> nat -> result Pixels)
  (image : Image) (hash_size : nat) (h : string) :
  _dhash Image convert_resize image hash_size = Ok h ->
  all_lower_hex h = true.
Proof.
  unfold _dhash.
  destruct (convert_resize image (hash_size + 1)%nat hash_size) as [getpixel| |];
    try discriminate.
  intros [= <-]. rewrite binary_array_to_hex_groups. apply pack_groups_lower_hex.
Qed.

(** The hash of the grid with one bright pixel. *)
Lemma dhash_lower_hex_witness : all_lower_hex "0100000000000000" = true.
Proof.
  apply (dhash_lower_hex Mock.Image Mock.convert_resize (1%nat, Mock.corner) 8).
  reflexivity.
Defined.

(** *** What the hash keeps of the grid *)

Lemma flat_map_rows {A B} (f f' : A -> list B) (n : nat) (rows : list A) :
  (forall r, length (f r) = n) -> (forall r, length (f' r) = n) ->
  (flat_map f rows = flat_map f' rows <-> forall r, In r rows -> f r = f' r).
Proof.
  intros Hf Hf'. induction rows as [|r rows IH]; simpl.
  - split; [intros _ x [] | reflexivity].
  - split.
    + intros H. apply app_inj_1 in H; [|now rewrite Hf, Hf'].
      destruct H as [Hr Hrest]. intros x [<- | Hx]; [exact Hr|].
      now apply IH.
    + intros H. rewrite (H r) by now left. f_equal.
      apply IH. intros x Hx. apply H. now right.
Qed.

(** The comparisons of two grids are the same lists exactly when the grids
    order every pixel and its right neighbour the same way. *)
Lemma adjacent_comparisons_agree (g g' : Pixels) (n : nat) :
  adjacent_comparisons g n = adjacent_comparisons g' n
  <-> forall col row, (col < n)%nat -> (row < n)%nat ->
        (g col row >? g (S col) row) = (g' col row >? g' (S col) row).
Proof.
  unfold adjacent_comparisons.
  rewrite (flat_map_rows _ _ n) by (intros r; now rewrite length_map, length_seq).
  split.
  - intros H col row Hc Hr.
    assert (Hrow : In row (seq 0 n)) by (apply in_seq; lia).
    specialize (H row Hrow).
    apply (proj1 map_ext_in_iff H col). apply in_seq. lia.
  - intros H row Hrow. apply map_ext_in. intros col Hcol.
    apply in_seq in Hrow, Hcol. apply H; lia.
Qed.

Lemma hex_digit_inj_nat (m n : nat) :
  (m < 16)%nat -> (n < 16)%nat ->
  Py.hex_digit (Z.of_nat m) = Py.hex_digit (Z.of_nat n) -> m = n.
Proof.
  intros Hm Hn H.
  do 16 (destruct m as [|m];
         [do 16 (destruct n as [|n];
                 [first [reflexivity | cbv in H; discriminate H]|]); lia|]).
  lia.
Qed.

Lemma hex_digit_inj (a b : Z) :
  0 <= a < 16 -> 0 <= b < 16 -> Py.hex_digit a = Py.hex_digit b -> a = b.
Proof.
  intros Ha Hb H.
  rewrite <- (Z2Nat.id a), <- (Z2Nat.id b) in H by lia.
  apply hex_digit_inj_nat in H; lia.
Qed.

Lemma hex_pair_inj (v w : Z) :
  0 <= v < 256 -> 0 <= w < 256 -> hex_pair v = hex_pair w -> v = w.
Proof.
  intros Hv Hw H. unfold hex_pair in H. injection H as Hhi Hlo.
  apply hex_digit_inj in Hhi;
    [|split; [apply Z.div_pos | apply Z.div_lt_upper_bound]; lia ..].
  apply hex_digit_inj in Hlo; [|apply Z.mod_pos_bound; lia ..].
  rewrite (Z.div_mod v 16), (Z.div_mod w 16) by lia. now rewrite Hhi, Hlo.
Qed.

Lemma value_lsb_first_bounds (bits : list bool) :
  0 <= value_lsb_first bits < 2 ^ Z.of_nat (length bits).
Proof.
  induction bits as [|b r IH]; [simpl; lia|].
  cbn [value_lsb_first length]. rewrite Nat2Z.inj_succ, Z.pow_succ_r by lia.
  destruct b; simpl Z.b2z; lia.
Qed.

Lemma value_lsb_first_inj (l1 l2 : list bool) :
  length l1 = length l2 -> value_lsb_first l1 = value_lsb_first l2 -> l1 = l2.
Proof.
  revert l2. induction l1 as [|b r IH]; intros [|c r2] Hlen H; try discriminate.
  - reflexivity.
  - simpl in Hlen, H. injection Hlen as Hlen.
    assert (Hb : b = c /\ value_lsb_first r = value_lsb_first r2)
      by (destruct b, c; simpl in H; split; (reflexivity || lia)).
    destruct Hb as [-> Hr]. f_equal. now apply IH.
Qed.

Lemma append_hex_pair (v : Z) (s : string) :
  String.append (hex_pair v) s
  = String (Py.hex_digit (v / 16)) (String (Py.hex_digit (v mod 16)) s).
Proof. reflexivity. Qed.

Lemma pack_groups_group (value : list bool -> Z)
  (b0 b1 b2 b3 b4 b5 b6 b7 : bool) (rest : list bool) :
  pack_groups value (b0 :: b1 :: b2 :: b3 :: b4 :: b5 :: b6 :: b7 :: rest)
  = hex_pair (value [b0; b1; b2; b3; b4; b5; b6; b7]) :: pack_groups value rest.
Proof. reflexivity. Qed.

(** Full groups of 8 bits can be read back from their digits. *)
Lemma pack_groups_inj (l1 : list bool) :
  forall l2,
    length l1 = length l2 -> (length l1 mod 8 = 0)%nat ->
    Py.join (pack_groups value_lsb_first l1) = Py.join (pack_groups value_lsb_first l2) ->
    l1 = l2.
Proof.
  induction l1 as [l1 Hshort | b0 b1 b2 b3 b4 b5 b6 b7 rest IH] using groups_ind;
    intros l2 Hlen Hmod H.
  - rewrite Nat.mod_small in Hmod by assumption.
    destruct l1; [|discriminate]. destruct l2; [reflexivity | discriminate].
  - destruct l2 as [|c0 [|c1 [|c2 [|c3 [|c4 [|c5 [|c6 [|c7 rest2]]]]]]]];
      try discriminate Hlen.
    rewrite !pack_groups_group in H.
    remember (value_lsb_first [b0; b1; b2; b3; b4; b5; b6; b7]) as v eqn:Ev.
    remember (value_lsb_first [c0; c1; c2; c3; c4; c5; c6; c7]) as w eqn:Ew.
    rewrite !join_cons, !append_hex_pair in H.
    injection H as Hhi Hlo Hrest.
    assert (Hv : v = w).
    { apply hex_pair_inj.
      - subst v. apply (value_lsb_first_bounds [_; _; _; _; _; _; _; _]).
      - subst w. apply (value_lsb_first_bounds [_; _; _; _; _; _; _; _]).
      - unfold hex_pair. now rewrite Hhi, Hlo. }
    rewrite Ev, Ew in Hv.
    apply value_lsb_first_inj in Hv; [|reflexivity].
    injection Hv as -> -> -> -> -> -> -> ->.
    do 8 f_equal. apply IH; [simpl in Hlen; lia | | exact Hrest].
    change (length (c0 :: c1 :: c2 :: c3 :: c4 :: c5 :: c6 :: c7 :: rest))
      with (1 * 8 + length rest)%nat in Hmod.
    rewrite Nat.add_comm, Nat.Div0.mod_add in Hmod. exact Hmod.
Qed.

(** When the comparisons fill whole bytes (as for the default size 8), two
    still images have the same hash if and only if their grids order every
    pixel and its right neighbour the same way: the hash keeps exactly the
    comparisons, and a change of the pixels that keeps them is not seen. *)
Theorem dhash_equal_iff
  (Image : Type) (convert_resize : Image -> nat -> nat -> result Pixels)
  (image image' : Image) (hash_size : nat) (g g' : Pixels) :
  convert_resize image (hash_size + 1)%nat hash_size = Ok g ->
  convert_resize image' (hash_size + 1)%nat hash_size = Ok g' ->
  (hash_size * hash_size mod 8 = 0)%nat ->
  (_dhash Image convert_resize image hash_size
   = _dhash Image convert_resize image' hash_size
   <-> forall col row, (col < hash_size)%nat -> (row < hash_size)%nat ->
         (g col row >? g (S col) row) = (g' col row >? g' (S col) row)).
Proof.
  intros Hg Hg' Hmod.
  rewrite (dhash_groups _ _ _ _ _ Hg), (dhash_groups _ _ _ _ _ Hg').
  rewrite <- adjacent_comparisons_agree. unfold dhash_lsb_first. split.
  - intros [= H]. apply pack_groups_inj.
    + now rewrite !adjacent_comparisons_length.
    + now rewrite adjacent_comparisons_length.
    + exact H.
  - now intros ->.
Qed.

(** The hash sees the order of neighbouring pixels only: a strictly
    increasing change of the gray levels (brighter, more contrast) leaves
    it as it is, for every hash size. *)
Theorem dhash_monotone_invariant
  (Image : Type) (convert_resize : Image -> nat -> nat -> result Pixels)
  (image image' : Image) (hash_size : nat) (g : Pixels) (level : Z -> Z) :
  (forall x y, (level x >? level y) = (x >? y)) ->
  convert_resize image (hash_size + 1)%nat hash_size = Ok g ->
  convert_resize image' (hash_size + 1)%nat hash_size
  = Ok (fun col row => level (g col row)) ->
  _dhash Image convert_resize image' hash_size
  = _dhash Image convert_resize image hash_size.
Proof.
  intros Hlevel Hg Hg'.
  rewrite (dhash_groups _ _ _ _ _ Hg), (dhash_groups _ _ _ _ _ Hg').
  unfold dhash_lsb_first. do 3 f_equal.
  apply adjacent_comparisons_agree. intros col row _ _. apply Hlevel.
Qed.

(** The grid with one bright pixel against itself. *)
Lemma dhash_equal_iff_witness :
  _dhash Mock.Image Mock.convert_resize (1%nat, Mock.corner) 8
  = _dhash Mock.Image Mock.convert_resize (2%nat, Mock.corner) 8
  <-> forall col row, (col < 8)%nat -> (row < 8)%nat ->
        (Mock.corner col row >? Mock.corner (S col) row)
        = (Mock.corner col row >? Mock.corner (S col) row).
Proof.
  apply (dhash_equal_iff Mock.Image Mock.convert_resize
           (1%nat, Mock.corner) (2%nat, Mock.corner) 8 Mock.corner Mock.corner);
    reflexivity.
Defined.

(** The grid with one bright pixel, and the same grid 10 levels brighter. *)
Lemma dhash_monotone_invariant_witness :
  _dhash Mock.Image Mock.convert_resize
    (1%nat, fun col row => Mock.corner col row + 10) 8
  = _dhash Mock.Image Mock.convert_resize (1%nat, Mock.corner) 8.
Proof.
  apply (dhash_monotone_invariant Mock.Image Mock.convert_resize
           (1%nat, Mock.corner) (1%nat, fun col row => Mock.corner col row + 10)
           8 Mock.corner (fun x => x + 10)).
  - intros x y. destruct (Z.gtb_spec (x + 10) (y + 10)), (Z.gtb_spec x y);
      (reflexivity || lia).
  - reflexivity.
  - reflexivity.
Defined.

End DifferenceHashProofs.

(** ** More on the content hash *)

Module ContentHashProofs.

Import FileHasher.

(** Whatever the size of the file against the size of a read, the result
    is the digest of the whole content, in one piece; and it is [None]
    exactly for a path that cannot be opened. *)
Theorem sha_hash_whole_file
  (Sha1 : Type) (sha1_new : Sha1)
  (sha1_update : Sha1 -> list Byte.byte -> Sha1)
  (sha1_hexdigest : Sha1 -> string)
  (disk : Disk) (filename : string) :
  (forall h a b, sha1_update (sha1_update h a) b = sha1_update h (a ++ b)) ->
  (forall h, sha1_update h [] = h) ->
  _sha_hash Sha1 sha1_new sha1_update sha1_hexdigest disk filename
  = option_map (ContentHash.sha1_digest sha1_new sha1_update sha1_hexdigest)
      (disk !! filename).
Proof.
  intros Happ Hnil. unfold _sha_hash.
  destruct (disk !! filename) as [content|]; [|reflexivity].
  cbn [option_map]. unfold ContentHash.sha1_digest. do 2 f_equal.
  apply FileHasherProofs.read_loop_whole; [exact Happ | exact Hnil | lia].
Qed.

(** The text file of the directory of three files. *)
Lemma sha_hash_whole_file_witness :
  _sha_hash Mock.Sha1 Mock.sha1_new Mock.sha1_update Mock.sha1_hexdigest
    Mock.disk "notes.txt"
  = option_map
      (ContentHash.sha1_digest Mock.sha1_new Mock.sha1_update Mock.sha1_hexdigest)
      (Mock.disk !! "notes.txt"%string).
Proof.
  apply (sha_hash_whole_file Mock.Sha1 Mock.sha1_new Mock.sha1_update
           Mock.sha1_hexdigest Mock.disk "notes.txt").
  - intros h a b. unfold Mock.sha1_update. symmetry. apply app_assoc.
  - intros h. apply app_nil_r.
Defined.

End ContentHashProofs.

(** ** More on the match finder *)

Module MatchProofs.

Import FileHasher Deduplicator DeduplicatorProofs HammingProofs.

Lemma check_hash_match_true (store : Store) (file : File) (search_hash : string) :
  _check_hash_match store file search_hash = true ->
  exists h, hash file = Some h
            /\ hamming_distance search_hash (full_hash h) < 4
            /\ forall u, In u (File_urls store file) ->
                 truthy (album_id u) = false /\ processed u = true.
Proof.
  intros Hc. unfold _check_hash_match in Hc.
  destruct (hash file) as [h|]; [|discriminate]. exists h.
  destruct (existsb _ (File_urls store file)) eqn:Hany; [discriminate|].
  destruct (Z.geb_spec (hamming_distance search_hash (full_hash h)) 4);
    [discriminate|].
  split; [reflexivity | split; [lia|]].
  intros u Hu.
  assert (Hu' : truthy (album_id u) || negb (processed u) = false).
  { apply not_true_is_false. intros Ht.
    assert (existsb (fun u => truthy (album_id u) || negb (processed u))
              (File_urls store file) = true)
      by (apply existsb_exists; now exists u).
    congruence. }
  apply orb_false_iff in Hu'. destruct Hu' as [Ha Hp].
  split; [exact Ha | now apply negb_false_iff].
Qed.

Section Matches.

Variable split_hash : string -> string * string * string * string.
Variable fetch : list File -> list File.

(** The database returns the rows a query selects, each once, in some
    order. *)
Hypothesis fetch_permutation : forall rows, Permutation (fetch rows) rows.

Lemma query_candidates_selected (store : Store) (search_hash : string) (file : File)
  (sp0 sp1 sp2 sp3 : string) :
  split_hash search_hash = (sp0, sp1, sp2, sp3) ->
  In file (files store) ->
  (match hash file with
   | None => false
   | Some h =>
       String.eqb (full_hash h) search_hash
       || String.eqb (p1 h) sp0 || String.eqb (p2 h) sp1
       || String.eqb (p3 h) sp2 || String.eqb (p4 h) sp3
   end) = true ->
  In file (query_candidates split_hash fetch store search_hash).
Proof.
  intros Hsplit Hin Hsel. unfold query_candidates. rewrite Hsplit.
  apply (Permutation_in file (Permutation_sym (fetch_permutation _))).
  apply filter_In. split; [exact Hin | exact Hsel].
Qed.

(** Every match is a row of the table of files and has a fingerprint of
    the length of the searched one, at a distance of 0 to 3 from it, and
    only URLs that are processed and without album id. *)
Theorem find_matching_files_sound
  (store : Store) (search_hash : string) (ignore_id : Z) (file : File) :
  In file (_find_matching_files split_hash fetch store search_hash ignore_id) ->
  In file (files store)
  /\ exists h, hash file = Some h
               /\ String.length (full_hash h) = String.length search_hash
               /\ 0 <= hamming_distance search_hash (full_hash h) < 4
               /\ forall u, In u (File_urls store file) ->
                    truthy (album_id u) = false /\ processed u = true.
Proof.
  intros Hin. apply find_matching_files_in in Hin. destruct Hin as [Hq Hc].
  split; [now apply (query_candidates_table split_hash fetch fetch_permutation
                       store search_hash)|].
  destruct (check_hash_match_true store file search_hash Hc) as (h & Hh & Hd & Hu).
  exists h. split; [exact Hh|].
  destruct (hamming_distance_counted search_hash (full_hash h)) as [Hlen Hr];
    [lia|].
  pose proof (count_differences_bounds search_hash (full_hash h)).
  split; [now symmetry | split; [lia | exact Hu]].
Qed.

(** A file of the table whose fingerprint is the searched one, and whose
    URLs (if it has any) are processed and without album id, is a match,
    however fingerprints are cut into partitions. *)
Theorem find_matching_files_exact
  (store : Store) (search_hash : string) (ignore_id : Z) (file : File) (h : Hash) :
  In file (files store) ->
  hash file = Some h ->
  full_hash h = search_hash ->
  (forall u, In u (File_urls store file) ->
     truthy (album_id u) = false /\ processed u = true) ->
  In file (_find_matching_files split_hash fetch store search_hash ignore_id).
Proof.
  intros Hin Hh Hfull Hurls. apply find_matching_files_in. split.
  - destruct (split_hash search_hash) as [[[sp0 sp1] sp2] sp3] eqn:Hsplit.
    apply (query_candidates_selected store search_hash file sp0 sp1 sp2 sp3 Hsplit Hin).
    rewrite Hh, Hfull, String.eqb_refl. reflexivity.
  - destruct (_check_hash_match store file search_hash) eqn:Hc; [reflexivity|].
    apply check_hash_match_false in Hc.
    destruct Hc as [Hnone | [(u & Hu & Hbad) | (h' & Hh' & Hd)]].
    + congruence.
    + destruct (Hurls u Hu) as [Ha Hp]. destruct Hbad; congruence.
    + assert (h' = h) by congruence. subst h'.
      rewrite Hfull in Hd.
      rewrite hamming_distance_same in Hd. lia.
Qed.

(** The partition query loses no match when the two fingerprints are cut
    at the same places: with the searched fingerprint and the stored one
    each the concatenation of its four partitions, of the same lengths, a
    file of the table that passes [_check_hash_match] shares a partition
    and is returned (fewer than 4 differences leave one of 4 parts
    untouched). *)
Theorem find_matching_files_complete
  (store : Store) (search_hash : string) (ignore_id : Z) (file : File) (h : Hash)
  (sp0 sp1 sp2 sp3 : string) :
  In file (files store) ->
  hash file = Some h ->
  split_hash search_hash = (sp0, sp1, sp2, sp3) ->
  search_hash
  = String.append sp0 (String.append sp1 (String.append sp2 sp3)) ->
  full_hash h
  = String.append (p1 h) (String.append (p2 h) (String.append (p3 h) (p4 h))) ->
  String.length sp0 = String.length (p1 h) ->
  String.length sp1 = String.length (p2 h) ->
  String.length sp2 = String.length (p3 h) ->
  _check_hash_match store file search_hash = true ->
  In file (_find_matching_files split_hash fetch store search_hash ignore_id).
Proof.
  intros Hin Hh Hsplit Hsearch Hfull H0 H1 H2 Hc.
  apply find_matching_files_in. split; [|exact Hc].
  destruct (check_hash_match_true store file search_hash Hc) as (h' & Hh' & Hd & _).
  assert (h' = h) by congruence. subst h'.
  destruct (hamming_distance_counted search_hash (full_hash h)) as [Hlen Hcount];
    [lia|].
  rewrite Hcount in Hd.
  assert (H3 : String.length sp3 = String.length (p4 h)).
  { rewrite Hsearch, Hfull in Hlen.
    rewrite !FileHasherProofs.string_length_append in Hlen. lia. }
  rewrite Hsearch, Hfull in Hd.
  rewrite !count_differences_append in Hd by assumption.
  pose proof (count_differences_bounds sp0 (p1 h)).
  pose proof (count_differences_bounds sp1 (p2 h)).
  pose proof (count_differences_bounds sp2 (p3 h)).
  pose proof (count_differences_bounds sp3 (p4 h)).
  assert (Hpart : p1 h = sp0 \/ p2 h = sp1 \/ p3 h = sp2 \/ p4 h = sp3).
  { destruct (Z.eq_dec (count_differences sp0 (p1 h)) 0) as [E|];
      [left; symmetry; now apply count_differences_zero|].
    destruct (Z.eq_dec (count_differences sp1 (p2 h)) 0) as [E|];
      [right; left; symmetry; now apply count_differences_zero|].
    destruct (Z.eq_dec (count_differences sp2 (p3 h)) 0) as [E|];
      [right; right; left; symmetry; now apply count_differences_zero|].
    destruct (Z.eq_dec (count_differences sp3 (p4 h)) 0) as [E|];
      [right; right; right; symmetry; now apply count_differences_zero|].
    lia. }
  apply (query_candidates_selected store search_hash file sp0 sp1 sp2 sp3 Hsplit Hin).
  rewrite Hh.
  destruct Hpart as [-> | [-> | [-> | ->]]]; rewrite String.eqb_refl;
    rewrite ?orb_true_r; reflexivity.
Qed.

End Matches.

(** The file 2, found by the fingerprint of the file 1. *)
Lemma find_matching_files_sound_witness :
  In Mock.file_b (files Mock.store)
  /\ exists h, hash Mock.file_b = Some h
               /\ String.length (full_hash h) = String.length "00ff00ff00ff00ff"
               /\ 0 <= hamming_distance "00ff00ff00ff00ff" (full_hash h) < 4
               /\ forall u, In u (File_urls Mock.store Mock.file_b) ->
                    truthy (album_id u) = false /\ processed u = true.
Proof.
  apply (find_matching_files_sound Mock.split_hash Mock.fetch
           (fun rows => Permutation_sym (Permutation_rev rows))
           Mock.store "00ff00ff00ff00ff" 3 Mock.file_b).
  left. reflexivity.
Defined.

(** The file 1 of the store of three files, searched by its fingerprint. *)
Lemma find_matching_files_exact_witness :
  In Mock.file_a
    (_find_matching_files Mock.split_hash Mock.fetch Mock.store "00ff00ff00ff00ff" 3).
Proof.
  apply (find_matching_files_exact Mock.split_hash Mock.fetch
           (fun rows => Permutation_sym (Permutation_rev rows))
           Mock.store "00ff00ff00ff00ff" 3 Mock.file_a
           (Mock.make_hash "00ff00ff00ff00ff")).
  - left. reflexivity.
  - reflexivity.
  - reflexivity.
  - intros u Hu. vm_compute in Hu.
    destruct Hu as [<- | [<- | []]]; split; reflexivity.
Defined.

(** The file 2, one digit away from the searched fingerprint. *)
Lemma find_matching_files_complete_witness :
  In Mock.file_b
    (_find_matching_files Mock.split_hash Mock.fetch Mock.store "00ff00ff00ff00ff" 3).
Proof.
  apply (find_matching_files_complete Mock.split_hash Mock.fetch
           (fun rows => Permutation_sym (Permutation_rev rows))
           Mock.store "00ff00ff00ff00ff" 3 Mock.file_b
           (Mock.make_hash "00ff00ff00ff00fe")
           "00ff" "00ff" "00ff" "00ff"); try reflexivity.
  right. left. reflexivity.
Defined.

End MatchProofs.

(** ** More on the resolution and on the pruner *)

Module ResolutionProofs.

Import FileHasher Deduplicator DeduplicatorProofs.

Section Order.

Context {A : Type} (key : A -> Z).

Lemma insert_desc_all (P : A -> Prop) (x : A) (l : list A) :
  P x -> Forall P l -> Forall P (Py.insert_desc key x l).
Proof.
  intros Hx Hl. induction Hl as [|y r Hy Hr IH]; simpl.
  - now constructor.
  - destruct (key x <? key y); repeat constructor; assumption.
Qed.

Lemma insert_desc_descending (x : A) (l : list A) :
  StronglySorted (fun a b => key b <= key a) l ->
  StronglySorted (fun a b => key b <= key a) (Py.insert_desc key x l).
Proof.
  induction 1 as [|y r Hr IH Hy]; simpl.
  - repeat constructor.
  - destruct (Z.ltb_spec (key x) (key y)) as [Hlt | Hge].
    + constructor; [exact IH|].
      apply insert_desc_all; [lia | exact Hy].
    + constructor; [now constructor|].
      constructor; [lia|].
      eapply Forall_impl; [exact Hy|]. intros z Hz. simpl in Hz. lia.
Qed.

Lemma sorted_reverse_descending (l : list A) :
  StronglySorted (fun a b => key b <= key a) (Py.sorted_reverse key l).
Proof.
  induction l as [|x r IH]; simpl; [constructor|].
  now apply insert_desc_descending.
Qed.

(** An element is inserted behind the strictly larger ones only: it stays
    in front of the elements of its own key. *)
Lemma insert_desc_class (k : Z) (x : A) (l : list A) :
  List.filter (fun a => key a =? k) (Py.insert_desc key x l)
  = List.filter (fun a => key a =? k) (x :: l).
Proof.
  induction l as [|y r IH]; [reflexivity|].
  simpl Py.insert_desc. destruct (Z.ltb_spec (key x) (key y)) as [Hlt | Hge];
    [|reflexivity].
  simpl in *. rewrite IH.
  destruct (Z.eqb_spec (key x) k), (Z.eqb_spec (key y) k); try reflexivity. lia.
Qed.

Lemma sorted_reverse_class (k : Z) (l : list A) :
  List.filter (fun a => key a =? k) (Py.sorted_reverse key l)
  = List.filter (fun a => key a =? k) l.
Proof.
  induction l as [|x r IH]; [reflexivity|].
  simpl Py.sorted_reverse. rewrite insert_desc_class. simpl. now rewrite IH.
Qed.

End Order.

Lemma existsb_perm {A} (f : A -> bool) (l l' : list A) :
  Permutation l l' -> existsb f l = existsb f l'.
Proof.
  intros P. destruct (existsb f l') eqn:E.
  - apply existsb_exists in E. destruct E as (x & Hx & Hf).
    apply existsb_exists. exists x. split; [|exact Hf].
    now apply (Permutation_in x (Permutation_sym P)).
  - apply not_true_is_false. intros E'. apply existsb_exists in E'.
    destruct E' as (x & Hx & Hf).
    assert (existsb f l' = true)
      by (apply existsb_exists; exists x; split;
          [now apply (Permutation_in x P) | exact Hf]).
    congruence.
Qed.

Lemma filter_map_length {A} (p : A -> bool) (G : A -> A) (l : list A) :
  length (List.filter p (map G l)) = length (List.filter (fun u => p (G u)) l).
Proof.
  induction l as [|x l IH]; simpl; [reflexivity|].
  destruct (p (G x)); simpl; now rewrite IH.
Qed.

Lemma filter_map_fixed {A} (p : A -> bool) (G : A -> A) (l : list A) :
  (forall u, p (G u) = p u) -> (forall u, p u = true -> G u = u) ->
  List.filter p (map G l) = List.filter p l.
Proof.
  intros Hp HG. induction l as [|x l IH]; simpl; [reflexivity|].
  rewrite Hp. destruct (p x) eqn:E; [rewrite (HG x E), IH | rewrite IH]; reflexivity.
Qed.

Section Policy.

Variable size : string -> Z.

Lemma resolve_some (world : Store * Disk) (matching : list File)
  (best : File) (others : list File) (world' : Store * Disk) :
  resolve size world matching = Some (best, others, world') ->
  _choose_best_file size matching = Some (best, others)
  /\ world' = fold_left (fun w o => _upgrade_file w best o) others world.
Proof.
  unfold resolve.
  destruct (_choose_best_file size matching) as [[b o]|]; [|discriminate].
  intros [= <- <- <-]. split; reflexivity.
Qed.

(** The best file and the others come in descending order of size, and
    the files of one size come in the order they have in the list given:
    here is all of what [sorted] does to the list. *)
Theorem choose_best_file_ordered
  (files : list File) (best : File) (others : list File) :
  _choose_best_file size files = Some (best, others) ->
  StronglySorted (fun a b => size (path b) <= size (path a)) (best :: others)
  /\ forall k,
       List.filter (fun f => size (path f) =? k) (best :: others)
       = List.filter (fun f => size (path f) =? k) files.
Proof.
  intros H. apply choose_best_file_sorted in H. rewrite <- H. split.
  - apply (sorted_reverse_descending (fun f => size (path f))).
  - intros k. apply (sorted_reverse_class (fun f => size (path f))).
Qed.

(** A resolution moves URLs and loses none: the table of URLs keeps its
    length, the URLs of the files outside the list keep their file, and
    the best file ends with as many URLs as the whole list had. *)
Theorem resolve_conserves_urls
  (store store' : Store) (disk disk' : Disk) (matching : list File)
  (best : File) (others : list File) :
  List.NoDup (map id matching) ->
  resolve size (store, disk) matching = Some (best, others, (store', disk')) ->
  length (urls store') = length (urls store)
  /\ (forall g, ~ In (id g) (map id matching) ->
        File_urls store' g = File_urls store g)
  /\ length (File_urls store' best)
     = length (List.filter
                 (fun u => existsb (fun f => file_id u =? id f) matching)
                 (urls store)).
Proof.
  intros Hids Hres. apply resolve_some in Hres. destruct Hres as [Hc Hw].
  pose proof (choose_best_file_perm size matching best others Hc) as Hperm.
  assert (Hnd : List.NoDup (map id (best :: others))).
  { apply (Permutation_NoDup (l := map id matching)); [|exact Hids].
    apply Permutation_map, Permutation_sym, Hperm. }
  assert (Hbest : ~ In (id best) (map id others)) by now inversion Hnd.
  pose proof (upgrade_loop_urls best others (store, disk) Hbest) as Hurls.
  rewrite <- Hw in Hurls. simpl in Hurls.
  split; [rewrite Hurls; apply length_map|]. split.
  - intros g Hg. unfold File_urls. rewrite Hurls.
    assert (Hgb : id g <> id best).
    { intros E. apply Hg. rewrite E.
      apply (Permutation_in (id best) (Permutation_map id Hperm)). now left. }
    assert (Hgo : forall u, file_id u = id g ->
              existsb (fun o => file_id u =? id o) others = false).
    { intros u Hu. apply not_true_is_false. intros Hex.
      apply existsb_exists in Hex. destruct Hex as (o & Ho & Heq).
      apply Z.eqb_eq in Heq. apply Hg.
      apply (Permutation_in (id g) (Permutation_map id Hperm)).
      right. apply in_map_iff. exists o. split; [congruence | exact Ho]. }
    apply filter_map_fixed.
    + intros u. destruct (existsb (fun o => file_id u =? id o) others) eqn:E;
        [|reflexivity].
      simpl. destruct (Z.eqb_spec (id best) (id g)) as [Heq|_]; [congruence|].
      destruct (Z.eqb_spec (file_id u) (id g)) as [Heq|_]; [|reflexivity].
      rewrite (Hgo u Heq) in E. discriminate.
    + intros u Hu. apply Z.eqb_eq in Hu. now rewrite (Hgo u Hu).
  - unfold File_urls. rewrite Hurls, filter_map_length. f_equal.
    apply filter_ext. intros u.
    rewrite <- (existsb_perm (fun f => file_id u =? id f) _ _ Hperm). simpl.
    destruct (existsb (fun o => file_id u =? id o) others); simpl.
    + rewrite Z.eqb_refl. now rewrite orb_true_r.
    + now rewrite orb_false_r.
Qed.

(** A resolution deletes stored objects and nothing else: the directory
    after it is a part of the directory before, and a path that is the path
    of no loser (the path of the best file, when no loser shares it) keeps
    what it had. *)
Theorem resolve_disk_frame
  (store store' : Store) (disk disk' : Disk) (matching : list File)
  (best : File) (others : list File) :
  resolve size (store, disk) matching = Some (best, others, (store', disk')) ->
  disk' ⊆ disk
  /\ forall p, (forall o, In o others -> path o <> p) -> disk' !! p = disk !! p.
Proof.
  intros Hres. apply resolve_some in Hres. destruct Hres as [_ Hw].
  assert (Hd : forall p, disk' !! p
             = if existsb (fun o => String.eqb (path o) p) others then None
               else disk !! p).
  { intros p. pose proof (upgrade_loop_disk best others (store, disk) p) as H.
    rewrite <- Hw in H. exact H. }
  split.
  - apply map_subseteq_spec. intros p c Hp. rewrite Hd in Hp.
    destruct (existsb _ others); [discriminate | exact Hp].
  - intros p Hp. rewrite Hd.
    destruct (existsb (fun o => String.eqb (path o) p) others) eqn:E; [|reflexivity].
    apply existsb_exists in E. destruct E as (o & Ho & Heq).
    apply String.eqb_eq in Heq. exfalso. now apply (Hp o Ho).
Qed.

End Policy.

Lemma filter_split_length {A} (p : A -> bool) (l : list A) :
  (length l = length (List.filter p l)
              + length (List.filter (fun x => negb (p x)) l))%nat.
Proof.
  induction l as [|x l IH]; simpl; [reflexivity|].
  destruct (p x); simpl; lia.
Qed.

Lemma filter_all {A} (p : A -> bool) (l : list A) :
  List.filter p l = l <-> List.filter (fun x => negb (p x)) l = [].
Proof.
  induction l as [|x l IH]; simpl; [tauto|].
  destruct (p x) eqn:E; simpl.
  - rewrite <- IH. split; [now intros [= H] | now intros ->].
  - split; [|discriminate]. intros H.
    assert (Hl : (length (List.filter p l) <= length l)%nat) by apply filter_length_le.
    rewrite H in Hl. simpl in Hl. lia.
Qed.

(** The number [_prune] returns is the number of rows it removes; it is 0
    exactly when the store is left as it was; and in the store it leaves
    every file has a URL. *)
Theorem prune_count (store : Store) :
  Z.of_nat (length (files store))
  = Z.of_nat (length (files (fst (_prune store)))) + snd (_prune store)
  /\ (snd (_prune store) = 0 <-> fst (_prune store) = store)
  /\ forall file, In file (files (fst (_prune store))) ->
       File_urls (fst (_prune store)) file <> [].
Proof.
  unfold _prune. simpl. split; [|split].
  - rewrite (filter_split_length (fun f => urls_any store f) (files store)) at 1. lia.
  - destruct store as [fs us]. simpl.
    pose proof (filter_all (fun f => urls_any {| files := fs; urls := us |} f) fs) as H.
    split.
    + intros H0. f_equal. apply H. apply length_zero_iff_nil. lia.
    + intros [= H0]. apply H in H0. now rewrite H0.
  - intros file Hin. apply filter_In in Hin. destruct Hin as [_ Hany].
    apply urls_any_File_urls in Hany. exact Hany.
Qed.

(** The three files of 10, 50 and 30 bytes. *)
Lemma choose_best_file_ordered_witness :
  StronglySorted (fun a b => Mock.size (path b) <= Mock.size (path a))
    (Mock.file_b :: [Mock.file_c; Mock.file_a])
  /\ forall k,
       List.filter (fun f => Mock.size (path f) =? k)
         (Mock.file_b :: [Mock.file_c; Mock.file_a])
       = List.filter (fun f => Mock.size (path f) =? k)
           [Mock.file_a; Mock.file_b; Mock.file_c].
Proof.
  apply (choose_best_file_ordered Mock.size
           [Mock.file_a; Mock.file_b; Mock.file_c] Mock.file_b
           [Mock.file_c; Mock.file_a]).
  reflexivity.
Defined.

End ResolutionProofs.

(** ** The sweep *)

Module SweepProofs.

Import FileHasher Deduplicator Sweep SweepInvariant DeduplicatorProofs.

Lemma nodup_id_inj (l : list File) (a b : File) :
  List.NoDup (map id l) -> In a l -> In b l -> id a = id b -> a = b.
Proof.
  induction l as [|x l IH]; intros Hnd Ha Hb Hid; [contradiction|].
  simpl in Hnd. inversion Hnd as [|? ? Hx Hl]; subst.
  destruct Ha as [<- | Ha], Hb as [<- | Hb].
  - reflexivity.
  - exfalso. apply Hx. rewrite Hid. now apply in_map.
  - exfalso. apply Hx. rewrite <- Hid. now apply in_map.
  - now apply IH.
Qed.

(** The URLs after the loop of upgrades are the URLs before, each with its
    columns [album_id] and [processed]. *)
Lemma upgrade_loop_columns (best : File) (others : list File) (world : Store * Disk) :
  exists G,
    urls (fst (fold_left (fun w o => _upgrade_file w best o) others world))
    = map G (urls (fst world))
    /\ forall u, album_id (G u) = album_id u /\ processed (G u) = processed u.
Proof.
  revert world. induction others as [|o os IH]; intros [store disk].
  - exists (fun u => u). simpl. split; [now rewrite map_id | now split].
  - destruct (IH (_upgrade_file (store, disk) best o)) as (G & HG & Hcols).
    exists (fun u => G (reassign (id o) (id best) u)). split.
    + cbn [fold_left]. rewrite HG. simpl. now rewrite map_map.
    + intros u. destruct (Hcols (reassign (id o) (id best) u)) as [-> ->].
      unfold reassign. destruct (file_id u =? id o); now split.
Qed.

Section DedupeProofs.

Variable Image : Type.
Variable Image_open : list Byte.byte -> result Image.
Variable n_frames : Image -> nat.
Variable convert_resize : Image -> nat -> nat -> result Pixels.
Variable Sha1 : Type.
Variable sha1_new : Sha1.
Variable sha1_update : Sha1 -> list Byte.byte -> Sha1.
Variable sha1_hexdigest : Sha1 -> string.
Variable split_hash : string -> string * string * string * string.
Variable fetch : list File -> list File.
Variable make_hash : File -> string -> Hash.
Variable size : Disk -> string -> Z.
Variable stop_event : nat -> bool.

Local Abbreviation best_hash :=
  (get_best_hash Image Image_open n_frames convert_resize
     Sha1 sha1_new sha1_update sha1_hexdigest).
Local Abbreviation round :=
  (dedupe_round Image Image_open n_frames convert_resize
     Sha1 sha1_new sha1_update sha1_hexdigest split_hash fetch make_hash size stop_event).
Local Abbreviation rounds :=
  (dedupe_rounds Image Image_open n_frames convert_resize
     Sha1 sha1_new sha1_update sha1_hexdigest split_hash fetch make_hash size stop_event).
Local Abbreviation dedupe :=
  (_dedupe Image Image_open n_frames convert_resize
     Sha1 sha1_new sha1_update sha1_hexdigest split_hash fetch make_hash size stop_event).

(** What a round that returns has done: nothing when the file is skipped,
    and else it has hashed the file, searched the matches and resolved
    them. *)
Lemma round_cases (store : Store) (disk : Disk) (idx : nat) (f : File)
  (world' : Store * Disk) :
  round (store, disk) idx f = Some world' ->
  (negb (is_file disk (path f)) || has_album store f || stop_event idx = true
   /\ world' = (store, disk))
  \/ (is_file disk (path f) = true /\ has_album store f = false
      /\ stop_event idx = false
      /\ exists new_hash,
           best_hash disk (path f) = Ok (Some new_hash)
           /\ let f' := {| id := id f; path := path f; downloaded := downloaded f;
                           hash := Some (make_hash f new_hash) |} in
              let store1 := set_hash store f' (make_hash f new_hash) in
              let matches :=
                _find_matching_files split_hash fetch store new_hash (id f) in
              (matches = [] /\ world' = (store1, disk))
              \/ (matches <> []
                  /\ exists best others,
                       _choose_best_file (size disk) (matches ++ [f'])
                       = Some (best, others)
                       /\ world' = fold_left (fun w o => _upgrade_file w best o)
                                     others (store1, disk))).
Proof.
  unfold dedupe_round.
  destruct (negb (is_file disk (path f)) || has_album store f || stop_event idx)
    eqn:Hskip; [intros [= <-]; left; now split | right].
  apply orb_false_iff in Hskip. destruct Hskip as [Hskip Hstop].
  apply orb_false_iff in Hskip. destruct Hskip as [Hfile Halbum].
  apply negb_false_iff in Hfile.
  split; [exact Hfile | split; [exact Halbum | split; [exact Hstop|]]].
  destruct (best_hash disk (path f)) as [[new_hash|]| |]; try discriminate.
  exists new_hash. split; [reflexivity|]. cbv zeta.
  cbv zeta in H.
  destruct (_find_matching_files split_hash fetch store new_hash (id f))
    as [|m ms] eqn:Hm; [left; split; [reflexivity | now injection H] | right].
  split; [discriminate|].
  unfold resolve in H.
  destruct (_choose_best_file (size disk) _) as [[best others]|] eqn:Hc;
    [|discriminate].
  exists best, others. split; [reflexivity | now injection H].
Qed.

Lemma rounds_none (l : list (nat * File)) :
  fold_left
    (fun w r => match w with None => None | Some w => round w (fst r) (snd r) end)
    l None = None.
Proof. induction l as [|r l IH]; [reflexivity | exact IH]. Qed.

Lemma rounds_cons (r : nat * File) (l : list (nat * File)) (world : Store * Disk) :
  rounds (r :: l) world
  = match round world (fst r) (snd r) with
    | None => None
    | Some w => rounds l w
    end.
Proof.
  unfold dedupe_rounds. simpl.
  destruct (round world (fst r) (snd r)); [reflexivity | apply rounds_none].
Qed.

(** What one round changes: fingerprints of the rows of its file, the
    file of URLs, and stored objects it deletes. *)
Lemma round_effect (store store' : Store) (disk disk' : Disk) (idx : nat) (f : File) :
  round (store, disk) idx f = Some (store', disk') ->
  (exists F, files store' = map F (files store)
             /\ forall g, id (F g) = id g /\ path (F g) = path g
                          /\ downloaded (F g) = downloaded g
                          /\ (hash (F g) = hash g
                              \/ (id g = id f /\ is_file disk (path f) = true)))
  /\ (exists G, urls store' = map G (urls store)
                /\ forall u, album_id (G u) = album_id u
                             /\ processed (G u) = processed u)
  /\ disk' ⊆ disk
  /\ (forall p c, disk !! p = Some c -> disk' !! p = None ->
        exists new_hash g,
          In g (_find_matching_files split_hash fetch store new_hash (id f) ++ [f])
          /\ path g = p).
Proof.
  intros Hround.
  destruct (round_cases store disk idx f (store', disk') Hround)
    as [[_ H] | (Hfile & _ & _ & new_hash & _ & Hcases)].
  { injection H as -> ->.
    split; [exists (fun g => g); split; [now rewrite map_id | intros g; tauto]|].
    split; [exists (fun u => u); split; [now rewrite map_id | intros u; tauto]|].
    split; [reflexivity | intros p c Hs Hn; congruence]. }
  cbv zeta in Hcases.
  set (h := make_hash f new_hash) in *.
  set (f' := {| id := id f; path := path f; downloaded := downloaded f;
                hash := Some h |}) in *.
  set (F := fun g => if id g =? id f'
                     then {| id := id g; path := path g;
                             downloaded := downloaded g; hash := Some h |}
                     else g).
  assert (HF : forall g, id (F g) = id g /\ path (F g) = path g
                         /\ downloaded (F g) = downloaded g
                         /\ (hash (F g) = hash g
                             \/ (id g = id f /\ is_file disk (path f) = true))).
  { intros g. unfold F. destruct (Z.eqb_spec (id g) (id f')) as [E | _]; simpl.
    - repeat split. right. split; [exact E | exact Hfile].
    - repeat split. now left. }
  destruct Hcases as [[_ H] | (_ & best & others & Hc & H)].
  { injection H as -> ->.
    split; [exists F; split; [reflexivity | exact HF]|].
    split; [exists (fun u => u); split; [now rewrite map_id | intros u; tauto]|].
    split; [reflexivity | intros p c Hs Hn; congruence]. }
  set (world1 := (set_hash store f' h, disk)) in *.
  assert (Hs : store' = fst (fold_left (fun w o => _upgrade_file w best o) others world1))
    by now rewrite <- H.
  assert (Hd : disk' = snd (fold_left (fun w o => _upgrade_file w best o) others world1))
    by now rewrite <- H.
  clear H.
  assert (Hlook : forall p, disk' !! p
                  = if existsb (fun o => String.eqb (path o) p) others then None
                    else disk !! p).
  { intros p. rewrite Hd. apply (upgrade_loop_disk best others world1 p). }
  split.
  { exists F. split; [|exact HF].
    rewrite Hs, (upgrade_loop_files best others world1). reflexivity. }
  split.
  { destruct (upgrade_loop_columns best others world1) as (G & HG & Hcols).
    exists G. split; [|exact Hcols]. rewrite Hs, HG. reflexivity. }
  split.
  { apply map_subseteq_spec. intros p c Hp. rewrite Hlook in Hp.
    destruct (existsb _ others); [discriminate | exact Hp]. }
  intros p c Hsome Hnone. rewrite Hlook in Hnone.
  destruct (existsb (fun o => String.eqb (path o) p) others) eqn:E; [|congruence].
  apply existsb_exists in E. destruct E as (o & Ho & Hp).
  apply String.eqb_eq in Hp.
  assert (Hin : In o (_find_matching_files split_hash fetch store new_hash (id f)
                      ++ [f'])).
  { apply (Permutation_in o (choose_best_file_perm _ _ _ _ Hc)). now right. }
  apply in_app_or in Hin. destruct Hin as [Hm | [<- | []]].
  - exists new_hash, o. split; [apply in_or_app; now left | exact Hp].
  - exists new_hash, f. split; [apply in_or_app; right; now left | exact Hp].
Qed.

(** The rounds keep the two columns of the URLs, whatever the files. *)
Lemma rounds_url_columns (l : list (nat * File)) :
  forall world world',
    rounds l world = Some world' ->
    map album_id (urls (fst world')) = map album_id (urls (fst world))
    /\ map processed (urls (fst world')) = map processed (urls (fst world)).
Proof.
  induction l as [|r l IH]; intros world world' Hrounds.
  - injection Hrounds as <-. now split.
  - rewrite rounds_cons in Hrounds.
    destruct (round world (fst r) (snd r)) as [[s d]|] eqn:Hr; [|discriminate].
    destruct world as [store disk].
    destruct (round_effect store s disk d (fst r) (snd r) Hr)
      as (_ & (G & HG & HGc) & _).
    destruct (IH (s, d) world' Hrounds) as [Ha Hp]. simpl in *.
    rewrite Ha, Hp, HG, !map_map.
    split; apply map_ext; intros u; now destruct (HGc u).
Qed.

(** A pass that returns either returned at once or ended with [_prune]. *)
Lemma dedupe_shape (store0 : Store) (disk0 : Disk) (world' : Store * Disk) :
  dedupe (store0, disk0) = Some world' ->
  world' = (store0, disk0)
  \/ exists l store,
       rounds l (store0, disk0) = Some (store, snd world')
       /\ fst world' = fst (_prune store).
Proof.
  unfold _dedupe.
  destruct (List.filter (fun _f => negb (has_album store0 _f))
              (query_unfinished fetch store0)) as [|f fs].
  - intros [= <-]. now left.
  - fold rounds.
    destruct (rounds (Py.enumerate (f :: fs)) (store0, disk0)) as [[store disk]|] eqn:Hr;
      [|discriminate].
    intros [= <-]. right. exists (Py.enumerate (f :: fs)), store. now split.
Qed.

(** A pass never writes the columns [album_id] and [processed] of a URL
    and never adds or drops a URL: the two columns of the table are after
    the pass what they were before it. *)
Theorem dedupe_keeps_url_columns (store0 store' : Store) (disk0 disk' : Disk) :
  dedupe (store0, disk0) = Some (store', disk') ->
  map album_id (urls store') = map album_id (urls store0)
  /\ map processed (urls store') = map processed (urls store0).
Proof.
  intros H. apply dedupe_shape in H.
  destruct H as [[= -> ->] | (l & store & Hr & Hfst)]; [now split|].
  simpl in Hfst. subst store'. cbn [urls].
  apply (rounds_url_columns l (store0, disk0) (store, disk') Hr).
Qed.

(** A pass that found a file to look at ends with [_prune]: either the
    world is left as it is (no file to look at), or no file without URL is
    left in the store. *)
Theorem dedupe_prunes (store0 store' : Store) (disk0 disk' : Disk) :
  dedupe (store0, disk0) = Some (store', disk') ->
  (store', disk') = (store0, disk0)
  \/ forall g, In g (files store') -> File_urls store' g <> [].
Proof.
  intros H. apply dedupe_shape in H.
  destruct H as [-> | (l & store & _ & Hfst)]; [now left | right].
  simpl in Hfst. subst store'. intros g Hg.
  apply prune_files in Hg. destruct Hg as [_ Hany].
  apply urls_any_File_urls in Hany.
  unfold File_urls in *. exact Hany.
Qed.

Lemma rounds_stopped (l : list (nat * File)) (world : Store * Disk) :
  (forall idx, stop_event idx = true) -> rounds l world = Some world.
Proof.
  intros Hstop. induction l as [|r l IH]; [reflexivity|].
  rewrite rounds_cons. destruct world as [store disk].
  unfold dedupe_round. rewrite Hstop, !orb_true_r. exact IH.
Qed.

(** With the stop signal set during the whole pass no file is hashed, no
    URL moved and no object deleted: the pass leaves the world as it is, or
    as [_prune] alone makes it. *)
Theorem dedupe_stopped (store : Store) (disk : Disk) :
  (forall idx, stop_event idx = true) ->
  dedupe (store, disk) = Some (store, disk)
  \/ dedupe (store, disk) = Some (fst (_prune store), disk).
Proof.
  intros Hstop. unfold _dedupe.
  destruct (List.filter (fun _f => negb (has_album store _f))
              (query_unfinished fetch store)) as [|f fs]; [now left | right].
  fold rounds. now rewrite (rounds_stopped _ (store, disk) Hstop).
Qed.

(** From here on the database returns the rows a query selects, each
    once, in some order. *)
Hypothesis fetch_permutation : forall rows, Permutation (fetch rows) rows.

Lemma invariant_start (store0 : Store) (disk0 : Disk) :
  invariant store0 disk0 (store0, disk0).
Proof.
  unfold invariant. simpl.
  split; [exists (fun g => g); split;
          [now rewrite map_id | intros g _; repeat split; now left]|].
  split; [exists (fun u => u); split; [now rewrite map_id | intros u; tauto]|].
  split; [reflexivity | intros p c Hs Hn; congruence].
Qed.

(** A round on an eligible file of the first store keeps the invariant. *)
Lemma round_invariant (store0 : Store) (disk0 : Disk) (world world' : Store * Disk)
  (idx : nat) (f : File) :
  In f (files store0) -> hash f = None -> downloaded f = true ->
  has_album store0 f = false ->
  invariant store0 disk0 world ->
  round world idx f = Some world' ->
  invariant store0 disk0 world'.
Proof.
  intros Hf Hhash Hdown Halbum Hinv Hround.
  destruct world as [store disk], world' as [store' disk'].
  destruct Hinv as ((F & HF & HFk) & (G & HG & HGc) & Hsub & Hdel). simpl in *.
  destruct (round_effect store store' disk disk' idx f Hround)
    as ((F' & HF' & HFk') & (G' & HG' & HGc') & Hsub' & Hdel').
  unfold invariant. simpl. split; [|split; [|split]].
  - exists (fun g0 => F' (F g0)). split; [now rewrite HF', HF, map_map|].
    intros g0 Hg0. destruct (HFk g0 Hg0) as (Hi & Hp & Hd & Hh).
    destruct (HFk' (F g0)) as (Hi' & Hp' & Hd' & Hh').
    unfold file_kept. split; [congruence | split; [congruence | split; [congruence|]]].
    intros Hnd. destruct Hh' as [Hsame | [Hid Hfile]].
    + rewrite Hsame. now apply Hh.
    + right. assert (g0 = f) by (apply (nodup_id_inj (files store0)); congruence).
      subst g0. repeat split; try assumption.
      unfold is_file in *. destruct (disk !! path f) as [c|] eqn:E; [|discriminate].
      now rewrite (proj1 (map_subseteq_spec disk disk0) Hsub _ _ E).
  - exists (fun u => G' (G u)). split; [now rewrite HG', HG, map_map|].
    intros u. destruct (HGc u) as [<- <-]. apply HGc'.
  - now transitivity disk.
  - intros p c Hs Hn. destruct (disk !! p) as [c'|] eqn:E.
    + destruct (Hdel' p c' E Hn) as (new_hash & g & Hg & Hp).
      apply in_app_or in Hg. destruct Hg as [Hg | [<- | []]].
      * apply find_matching_files_in in Hg. destruct Hg as [Hg _].
        apply (query_candidates_table split_hash fetch fetch_permutation) in Hg.
        rewrite HF in Hg. apply in_map_iff in Hg. destruct Hg as (g0 & <- & Hg0).
        exists g0. split; [exact Hg0|].
        destruct (HFk g0 Hg0) as (_ & Hp0 & _). congruence.
      * now exists f.
    + now apply (Hdel p c).
Qed.

Lemma rounds_invariant (store0 : Store) (disk0 : Disk) (l : list (nat * File)) :
  (forall r, In r l ->
     In (snd r) (files store0) /\ hash (snd r) = None
     /\ downloaded (snd r) = true /\ has_album store0 (snd r) = false) ->
  forall world world',
    invariant store0 disk0 world ->
    rounds l world = Some world' ->
    invariant store0 disk0 world'.
Proof.
  induction l as [|r l IH]; intros Hl world world' Hinv Hrounds.
  - injection Hrounds as <-. exact Hinv.
  - rewrite rounds_cons in Hrounds.
    destruct (round world (fst r) (snd r)) as [w|] eqn:Hr; [|discriminate].
    destruct (Hl r (or_introl eq_refl)) as (H1 & H2 & H3 & H4).
    apply (IH (fun r' Hr' => Hl r' (or_intror Hr')) w world'); [|exact Hrounds].
    exact (round_invariant store0 disk0 world w (fst r) (snd r) H1 H2 H3 H4 Hinv Hr).
Qed.

Lemma enumerate_from_snd {A} (l : list A) (start : nat) (r : nat * A) :
  In r (Py.enumerate_from start l) -> In (snd r) l.
Proof.
  revert start. induction l as [|x l IH]; intros start; simpl; [tauto|].
  intros [<- | H]; [now left | right; now apply (IH (S start))].
Qed.

(** The store before the pruning of a pass, when there is one. *)
Lemma dedupe_cases (store0 : Store) (disk0 : Disk) (world' : Store * Disk) :
  dedupe (store0, disk0) = Some world' ->
  world' = (store0, disk0)
  \/ exists store, invariant store0 disk0 (store, snd world')
                   /\ fst world' = fst (_prune store).
Proof.
  unfold _dedupe.
  destruct (List.filter (fun _f => negb (has_album store0 _f))
              (query_unfinished fetch store0)) as [|f fs] eqn:Hu.
  - intros [= <-]. now left.
  - fold rounds.
    destruct (rounds (Py.enumerate (f :: fs)) (store0, disk0)) as [[store disk]|] eqn:Hr;
      [|discriminate].
    intros [= <-]. right. exists store. split; [|reflexivity].
    apply (rounds_invariant store0 disk0 (Py.enumerate (f :: fs))) with (world := (store0, disk0));
      [|apply invariant_start | exact Hr].
    intros r Hin. apply enumerate_from_snd in Hin. rewrite <- Hu in Hin.
    apply filter_In in Hin. destruct Hin as [Hin Halb].
    apply negb_true_iff in Halb.
    apply (query_unfinished_table fetch fetch_permutation) in Hin.
    destruct Hin as (Hin & Hhash & Hdown). now repeat split.
Qed.

(** When the store has no downloaded file without fingerprint and
    without album URL, the pass returns at once: the world is left as it
    is, files without URL included, for [_prune] is not reached. *)
Theorem dedupe_nothing_to_do (store : Store) (disk : Disk) :
  (forall f, In f (files store) ->
     hash f <> None \/ downloaded f = false \/ has_album store f = true) ->
  dedupe (store, disk) = Some (store, disk).
Proof.
  intros Hnone. unfold _dedupe.
  destruct (List.filter (fun _f => negb (has_album store _f))
              (query_unfinished fetch store)) as [|f fs] eqn:Hu; [reflexivity|].
  exfalso.
  assert (Hin : In f (List.filter (fun _f => negb (has_album store _f))
                        (query_unfinished fetch store)))
    by (rewrite Hu; now left).
  apply filter_In in Hin. destruct Hin as [Hin Halb].
  apply negb_true_iff in Halb.
  apply (query_unfinished_table fetch fetch_permutation) in Hin.
  destruct Hin as (Hin & Hhash & Hdown).
  destruct (Hnone f Hin) as [H | [H | H]]; congruence.
Qed.

(** A pass creates and changes no stored object: the directory after it is
    a part of the directory before, and an object it deleted was stored
    under the path of a row of the table of files. *)
Theorem dedupe_deletes_tracked_only (store0 store' : Store) (disk0 disk' : Disk) :
  dedupe (store0, disk0) = Some (store', disk') ->
  disk' ⊆ disk0
  /\ forall p c, disk0 !! p = Some c -> disk' !! p = None ->
       exists g0, In g0 (files store0) /\ path g0 = p.
Proof.
  intros H. apply dedupe_cases in H.
  destruct H as [[= -> ->] | (store & Hinv & _)].
  - split; [reflexivity | intros p c Hs Hn; congruence].
  - destruct Hinv as (_ & _ & Hsub & Hdel). now split.
Qed.

(** Where ids are keys of the table of files, every row after a pass is a
    row of before with its id, path and downloaded flag, and with its
    fingerprint state unless it was eligible: downloaded, without
    fingerprint, without album URL, and with its object in the directory.
    So a fingerprint is never replaced, and a file with an album URL or
    without stored object gets none. *)
Theorem dedupe_fingerprints_eligible_only
  (store0 store' : Store) (disk0 disk' : Disk) :
  List.NoDup (map id (files store0)) ->
  dedupe (store0, disk0) = Some (store', disk') ->
  forall g, In g (files store') ->
    exists g0, In g0 (files store0)
               /\ id g = id g0 /\ path g = path g0 /\ downloaded g = downloaded g0
               /\ (hash g = hash g0 \/ eligible store0 disk0 g0).
Proof.
  intros Hnd H g Hg. apply dedupe_cases in H.
  destruct H as [[= -> ->] | (store & Hinv & Hfst)].
  - exists g. repeat split; try assumption. now left.
  - simpl in Hfst. subst store'. apply prune_files in Hg. destruct Hg as [Hg _].
    destruct Hinv as ((F & HF & HFk) & _). simpl in HF.
    rewrite HF in Hg. apply in_map_iff in Hg. destruct Hg as (g0 & <- & Hg0).
    exists g0. destruct (HFk g0 Hg0) as (Hi & Hp & Hd & Hh).
    repeat split; try assumption. now apply Hh.
Qed.

End DedupeProofs.

(** *** The pass on the small world *)

Example dedupe_small_world :
  MockSweep.dedupe MockSweep.never_stopped (MockSweep.store, Mock.photos)
  = Some (MockSweep.store_after, MockSweep.disk_after).
Proof. vm_compute. reflexivity. Qed.

(** The exception of Pillow on the image of too many pixels ends the
    pass. *)
Example dedupe_image_bomb :
  MockSweep.dedupe MockSweep.never_stopped (MockSweep.bomb_store, Mock.disk)
  = None.
Proof. vm_compute. reflexivity. Qed.

(** A store whose files all have a fingerprint, one of them without URL. *)
Lemma dedupe_nothing_to_do_witness :
  MockSweep.dedupe MockSweep.never_stopped (MockSweep.finished, Mock.photos)
  = Some (MockSweep.finished, Mock.photos).
Proof.
  apply (dedupe_nothing_to_do Mock.Image Mock.Image_open Mock.n_frames
           Mock.convert_resize Mock.Sha1 Mock.sha1_new Mock.sha1_update
           Mock.sha1_hexdigest Mock.split_hash Mock.fetch MockSweep.make_hash MockSweep.size
           MockSweep.never_stopped
           (fun rows => Permutation_sym (Permutation_rev rows)) MockSweep.finished Mock.photos).
  intros f [<- | [<- | []]]; left; discriminate.
Defined.

(** The pass that merges the file 3 into the file 2. *)
Lemma dedupe_keeps_url_columns_witness :
  map album_id (urls MockSweep.store_after) = map album_id (urls MockSweep.store)
  /\ map processed (urls MockSweep.store_after)
     = map processed (urls MockSweep.store).
Proof.
  apply (dedupe_keeps_url_columns Mock.Image Mock.Image_open Mock.n_frames
           Mock.convert_resize Mock.Sha1 Mock.sha1_new Mock.sha1_update
           Mock.sha1_hexdigest Mock.split_hash Mock.fetch MockSweep.make_hash MockSweep.size
           MockSweep.never_stopped MockSweep.store MockSweep.store_after
           Mock.photos MockSweep.disk_after).
  vm_compute. reflexivity.
Defined.

Lemma dedupe_deletes_tracked_only_witness :
  MockSweep.disk_after ⊆ Mock.photos
  /\ forall p c, Mock.photos !! p = Some c -> MockSweep.disk_after !! p = None ->
       exists g0, In g0 (files MockSweep.store) /\ path g0 = p.
Proof.
  apply (dedupe_deletes_tracked_only Mock.Image Mock.Image_open Mock.n_frames
           Mock.convert_resize Mock.Sha1 Mock.sha1_new Mock.sha1_update
           Mock.sha1_hexdigest Mock.split_hash Mock.fetch MockSweep.make_hash MockSweep.size
           MockSweep.never_stopped
           (fun rows => Permutation_sym (Permutation_rev rows)) MockSweep.store MockSweep.store_after
           Mock.photos MockSweep.disk_after).
  vm_compute. reflexivity.
Defined.

Lemma dedupe_fingerprints_eligible_only_witness :
  exists g0, In g0 (files MockSweep.store)
             /\ id MockSweep.known = id g0 /\ path MockSweep.known = path g0
             /\ downloaded MockSweep.known = downloaded g0
             /\ (hash MockSweep.known = hash g0
                 \/ eligible MockSweep.store Mock.photos g0).
Proof.
  apply (dedupe_fingerprints_eligible_only Mock.Image Mock.Image_open Mock.n_frames
           Mock.convert_resize Mock.Sha1 Mock.sha1_new Mock.sha1_update
           Mock.sha1_hexdigest Mock.split_hash Mock.fetch MockSweep.make_hash MockSweep.size
           MockSweep.never_stopped
           (fun rows => Permutation_sym (Permutation_rev rows)) MockSweep.store MockSweep.store_after
           Mock.photos MockSweep.disk_after).
  - simpl. repeat constructor; simpl; intuition discriminate.
  - vm_compute. reflexivity.
  - left. reflexivity.
Defined.

Lemma dedupe_prunes_witness :
  (MockSweep.store_after, MockSweep.disk_after) = (MockSweep.store, Mock.photos)
  \/ forall g, In g (files MockSweep.store_after) ->
       File_urls MockSweep.store_after g <> [].
Proof.
  apply (dedupe_prunes Mock.Image Mock.Image_open Mock.n_frames
           Mock.convert_resize Mock.Sha1 Mock.sha1_new Mock.sha1_update
           Mock.sha1_hexdigest Mock.split_hash Mock.fetch MockSweep.make_hash MockSweep.size
           MockSweep.never_stopped MockSweep.store MockSweep.store_after
           Mock.photos MockSweep.disk_after).
  vm_compute. reflexivity.
Defined.

(** The same world with the stop signal set. *)
Lemma dedupe_stopped_witness :
  MockSweep.dedupe MockSweep.stopped (MockSweep.store, Mock.photos)
  = Some (MockSweep.store, Mock.photos)
  \/ MockSweep.dedupe MockSweep.stopped (MockSweep.store, Mock.photos)
     = Some (fst (_prune MockSweep.store), Mock.photos).
Proof.
  apply (dedupe_stopped Mock.Image Mock.Image_open Mock.n_frames
           Mock.convert_resize Mock.Sha1 Mock.sha1_new Mock.sha1_update
           Mock.sha1_hexdigest Mock.split_hash Mock.fetch MockSweep.make_hash MockSweep.size
           MockSweep.stopped MockSweep.store Mock.photos).
  reflexivity.
Defined.

(** The resolution of the three files of 10, 50 and 30 bytes. *)
Lemma resolve_conserves_urls_witness :
  length (urls MockSweep.resolved) = length (urls Mock.store)
  /\ (forall g,
        ~ In (id g) (map id [Mock.file_a; Mock.file_b; Mock.file_c]) ->
        File_urls MockSweep.resolved g = File_urls Mock.store g)
  /\ length (File_urls MockSweep.resolved Mock.file_b)
     = length (List.filter
                 (fun u => existsb (fun f => file_id u =? id f)
                             [Mock.file_a; Mock.file_b; Mock.file_c])
                 (urls Mock.store)).
Proof.
  apply (ResolutionProofs.resolve_conserves_urls Mock.size Mock.store
           MockSweep.resolved Mock.photos MockSweep.photos_resolved
           [Mock.file_a; Mock.file_b; Mock.file_c] Mock.file_b
           [Mock.file_c; Mock.file_a]).
  - simpl. repeat constructor; simpl; intuition discriminate.
  - vm_compute. reflexivity.
Defined.

Lemma resolve_disk_frame_witness :
  MockSweep.photos_resolved ⊆ Mock.photos
  /\ forall p, (forall o, In o [Mock.file_c; Mock.file_a] -> path o <> p) ->
       MockSweep.photos_resolved !! p = Mock.photos !! p.
Proof.
  apply (ResolutionProofs.resolve_disk_frame Mock.size Mock.store
           MockSweep.resolved Mock.photos MockSweep.photos_resolved
           [Mock.file_a; Mock.file_b; Mock.file_c] Mock.file_b
           [Mock.file_c; Mock.file_a]).
  vm_compute. reflexivity.
Defined.

End SweepProofs.
